(** * outfit-scanner: the process-image route (app/api/process-image/route.ts)

    A shallow embedding of the server endpoint of the outfit scanner: the
    attribute extractor ([extractAttributes] and its keyword pickers), the
    query builder ([buildQuery]), the shopping search adapter
    ([searchShopping]) and the request orchestrator ([POST]).

    Conventions of the embedding.
    - A JavaScript string is a [string]: the UTF-8 bytes of the text.
      Substring search, concatenation and the regular expression of the
      query builder (whose classes are ASCII) are exact on this encoding.
      [trim] strips the encodings of the white space and line terminators of
      ECMAScript.  [toLowerCase] needs the case tables of Unicode: it is a
      parameter of the embedding ([JsStrings]), known only through the fact
      that it works text by text on texts joined by a space.
    - [undefined] is [None]; an optional field [f?: T] is an [option T].
    - An object that the code mutates is threaded explicitly: a function that
      writes to its argument returns the argument's final value next to its
      result.
    - The annotation service ([VisionClient]) and the search service with
      the key of the process environment ([SearchService]) are records of
      oracles; every call the route makes to the outside is appended to a
      trace.
    - [console.log] and [console.error] are not modelled: they do not reach
      the client. *)

From Stdlib Require Import String Ascii List Bool Arith ZArith Lia DecimalString.
Import ListNotations.

Open Scope string_scope.
Open Scope bool_scope.

(* ================================================================== *)
(** ** JavaScript string primitives used by the route *)
(* ================================================================== *)

Module Js.

Definition isUpper (c : ascii) : bool :=
  ((65 <=? nat_of_ascii c) && (nat_of_ascii c <=? 90))%nat.

Definition isLower (c : ascii) : bool :=
  ((97 <=? nat_of_ascii c) && (nat_of_ascii c <=? 122))%nat.

Definition isDigit (c : ascii) : bool :=
  ((48 <=? nat_of_ascii c) && (nat_of_ascii c <=? 57))%nat.

(** [String.prototype.includes]: [key] occurs in [s] as a substring. *)
Fixpoint includes (s key : string) : bool :=
  String.prefix key s ||
  match s with
  | EmptyString => false
  | String _ s' => includes s' key
  end.

(** The UTF-8 bytes of a code point of the Basic Multilingual Plane. *)
Definition utf8 (cp : N) : string :=
  if (cp <? 128)%N then String (ascii_of_N cp) ""
  else if (cp <? 2048)%N
  then String (ascii_of_N (192 + cp / 64))
         (String (ascii_of_N (128 + cp mod 64)) "")
  else String (ascii_of_N (224 + cp / 4096))
         (String (ascii_of_N (128 + (cp / 64) mod 64))
            (String (ascii_of_N (128 + cp mod 64)) "")).

(** The code points that [trim] strips: the WhiteSpace and LineTerminator
    productions of ECMAScript (TAB, LF, VT, FF, CR, SPACE, U+00A0, U+1680,
    U+2000 to U+200A, U+2028, U+2029, U+202F, U+205F, U+3000, U+FEFF). *)
Definition whiteSpaceCodePoints : list N :=
  [9; 10; 11; 12; 13; 32; 160; 5760;
   8192; 8193; 8194; 8195; 8196; 8197; 8198; 8199; 8200; 8201; 8202;
   8232; 8233; 8239; 8287; 12288; 65279]%N.

Definition whiteSpace : list string := map utf8 whiteSpaceCodePoints.

(** The rest of [s] after the prefix [p], when [s] begins with [p]. *)
Fixpoint dropPrefix (p s : string) : option string :=
  match p with
  | EmptyString => Some s
  | String c p' =>
      match s with
      | String d s' => if Ascii.eqb c d then dropPrefix p' s' else None
      | EmptyString => None
      end
  end.

Fixpoint dropAny (ps : list string) (s : string) : option string :=
  match ps with
  | [] => None
  | p :: ps' =>
      match dropPrefix p s with
      | Some rest => Some rest
      | None => dropAny ps' s
      end
  end.

(** The rest of [s] after one leading white-space character, if any. *)
Definition dropSpace (s : string) : option string := dropAny whiteSpace s.

(** Strip leading white space, at most [n] characters of it. *)
Fixpoint trimStartUpTo (n : nat) (s : string) : string :=
  match n with
  | O => s
  | S n' =>
      match dropSpace s with
      | Some rest => trimStartUpTo n' rest
      | None => s
      end
  end.

(** [String.prototype.trimStart]: a string has no more white-space
    characters than bytes. *)
Definition trimStart (s : string) : string :=
  trimStartUpTo (String.length s) s.

(** A string of white space only. *)
Definition allSpace (s : string) : bool := trimStart s =? "".

(** [String.prototype.trimEnd]: cut where the rest is white space only. *)
Fixpoint trimEnd (s : string) : string :=
  match s with
  | EmptyString => EmptyString
  | String c s' =>
      if allSpace (String c s') then EmptyString else String c (trimEnd s')
  end.

(** [String.prototype.trim]. *)
Definition trim (s : string) : string := trimEnd (trimStart s).

(** [Array.prototype.join]. *)
Definition join (sep : string) (parts : list string) : string :=
  String.concat sep parts.

(** [String.prototype.toLowerCase], the built-in of the runtime.  It maps
    code points by the case tables of Unicode and treats a capital sigma by
    its place in a word; a space is neither a letter nor part of a word, so
    lower-casing texts joined by spaces is lower-casing each text. *)
Class JsStrings : Type := {
  toLowerCase : string -> string;
  toLowerCase_join :
    forall texts : list string,
      toLowerCase (join " " texts) = join " " (map toLowerCase texts)
}.

(** [toLowerCase] on ASCII text: [A] to [Z] become [a] to [z]. *)
Definition asciiLowerChar (c : ascii) : ascii :=
  if isUpper c then ascii_of_nat (nat_of_ascii c + 32) else c.

Fixpoint asciiToLowerCase (s : string) : string :=
  match s with
  | EmptyString => EmptyString
  | String c s' => String (asciiLowerChar c) (asciiToLowerCase s')
  end.

(** Truthiness of a [string | undefined]: defined and not empty. *)
Definition truthy (o : option string) : bool :=
  match o with
  | Some s => negb (s =? "")
  | None => false
  end.

(** [x ?? []] on an optional array. *)
Definition orEmpty {A : Type} (o : option (list A)) : list A :=
  match o with
  | Some l => l
  | None => []
  end.

(** [.filter(Boolean)] on an array of [string | undefined]. *)
Fixpoint filterTruthy (l : list (option string)) : list string :=
  match l with
  | [] => []
  | Some s :: l' => if s =? "" then filterTruthy l' else s :: filterTruthy l'
  | None :: l' => filterTruthy l'
  end.

(** *** The regular expression [/\b(t-?shirt|tee|shirt)\b/]

    [\w] is [[A-Za-z0-9_]]; [\b] holds at a position when exactly one of the
    character before it and the character after it is a word character.  The
    group is followed by [\b] only, so [test] succeeds when some start
    position and some alternative satisfy both boundaries; [t-?shirt] stands
    for the two literals [t-shirt] and [tshirt]. *)

Definition isWordChar (c : ascii) : bool :=
  isLower c || isUpper c || isDigit c || (nat_of_ascii c =? 95)%nat.

Definition headIsWord (s : string) : bool :=
  match s with
  | String c _ => isWordChar c
  | EmptyString => false
  end.

Definition wordBoundary (before : bool) (rest : string) : bool :=
  xorb before (headIsWord rest).

(** Consume the literal [w] at the head of [s]; the result is the rest of the
    input and whether the character just before it is a word character. *)
Fixpoint matchLiteral (w s : string) (before : bool) : option (bool * string) :=
  match w with
  | EmptyString => Some (before, s)
  | String c w' =>
      match s with
      | String d s' =>
          if Ascii.eqb c d then matchLiteral w' s' (isWordChar d) else None
      | EmptyString => None
      end
  end.

Definition tshirtAlternatives : list string :=
  ["t-shirt"; "tshirt"; "tee"; "shirt"].

Definition matchHere (before : bool) (s : string) : bool :=
  wordBoundary before s &&
  existsb
    (fun w =>
       match matchLiteral w s before with
       | Some (b, rest) => wordBoundary b rest
       | None => false
       end)
    tshirtAlternatives.

Fixpoint searchFrom (before : bool) (s : string) : bool :=
  matchHere before s ||
  match s with
  | EmptyString => false
  | String c s' => searchFrom (isWordChar c) s'
  end.

(** [/\b(t-?shirt|tee|shirt)\b/.test(s)]. *)
Definition tshirtRegexTest (s : string) : bool := searchFrom false s.

End Js.

Import Js.

(* ================================================================== *)
(** ** Types *)
(* ================================================================== *)

(** [type Attributes]: every field is optional. *)
Record Attributes : Type := mkAttributes {
  brand : option string;
  category : option string;
  colors : option (list string);
  patterns : option (list string);
  texts : option (list string)
}.

Definition setCategory (a : Attributes) (c : string) : Attributes :=
  {| brand := brand a;
     category := Some c;
     colors := colors a;
     patterns := patterns a;
     texts := texts a |}.

(* ================================================================== *)
(** ** The query builder *)
(* ================================================================== *)

(** [parts.push(x)] guarded by [if (x)] for an optional string. *)
Definition pushIfTruthy (parts : list string) (o : option string) : list string :=
  match o with
  | Some s => if s =? "" then parts else parts ++ [s]
  | None => parts
  end.

(** [if (xs?.length) parts.push(xs[0])]. *)
Definition pushFirst (parts : list string) (o : option (list string)) : list string :=
  match o with
  | Some (x :: _) => parts ++ [x]
  | _ => parts
  end.

(** The first statement of [buildQuery]: the in-place inference of the
    category from the OCR texts. *)
Definition inferCategory {strings : JsStrings} (a : Attributes) : Attributes :=
  let txt := toLowerCase (join " " (orEmpty (texts a))) in
  if negb (truthy (category a)) && tshirtRegexTest txt
  then setCategory a "t-shirt"
  else a.

(** [buildQuery(a)]: the returned string, and the record [a] as the call
    leaves it (the function assigns to [a.category]). *)
Definition buildQuery {strings : JsStrings} (a : Attributes)
  : string * Attributes :=
  let a := inferCategory a in
  let parts := [] in
  let parts := pushIfTruthy parts (brand a) in
  let parts := pushIfTruthy parts (category a) in
  let parts := pushFirst parts (colors a) in
  let parts := pushFirst parts (patterns a) in
  if negb (truthy (brand a)) && negb (truthy (category a))
  then ("", a)
  else (trim (join " " (parts ++ ["buy"])), a).

(** The value [buildQuery] returns. *)
Definition queryOf {strings : JsStrings} (a : Attributes) : string :=
  fst (buildQuery a).

(** The argument record after the call. *)
Definition recordAfter {strings : JsStrings} (a : Attributes) : Attributes :=
  snd (buildQuery a).

(* ================================================================== *)
(** ** The attribute extractor: keyword pickers *)
(* ================================================================== *)

(** The object literal [brandMap] of [pickBrandFromPools].  [for (key in
    brandMap)] visits the keys in insertion order (none of them is an array
    index), so the table is an association list in source order. *)
Definition brandMap : list (string * string) :=
  [ ("nike", "Nike");
    ("swoosh", "Nike");
    ("just do it", "Nike");
    ("adidas", "Adidas");
    ("three stripes", "Adidas");
    ("puma", "Puma");
    ("the north face", "The North Face");
    ("north face", "The North Face");
    ("patagonia", "Patagonia");
    ("levi's", "Levi's");
    ("levis", "Levi's");
    ("uniqlo", "UNIQLO");
    ("zara", "Zara");
    ("h&m", "H&M");
    ("hm", "H&M");
    ("under armour", "Under Armour");
    ("new balance", "New Balance");
    ("asics", "ASICS");
    ("vans", "Vans");
    ("converse", "Converse");
    ("reebok", "Reebok");
    ("supreme", "Supreme");
    ("stussy", "Stüssy");
    ("lululemon", "Lululemon");
    ("lulu", "Lululemon") ].

(** The inner loop of [pickBrandFromPools] on one pool entry [s]:
    [for (const key in m) if (s.includes(key)) return m[key]]. *)
Fixpoint firstKeyIn (m : list (string * string)) (s : string) : option string :=
  match m with
  | [] => None
  | (key, canonical) :: m' =>
      if includes s key then Some canonical else firstKeyIn m' s
  end.

(** The outer loop, over the pool entries, for a table [m]. *)
Fixpoint pickBrandWith (m : list (string * string)) (pools : list string)
  : option string :=
  match pools with
  | [] => None
  | s :: rest =>
      match firstKeyIn m s with
      | Some b => Some b
      | None => pickBrandWith m rest
      end
  end.

Definition pickBrandFromPools (pools : list string) : option string :=
  pickBrandWith brandMap pools.

Definition normalizeBrand (b : option string) : option string :=
  if negb (truthy b) then None else b.

Definition cats : list (list string) :=
  [ ["t-shirt"; "tee"; "shirt"; "jersey"; "top"];
    ["hoodie"; "sweatshirt"];
    ["jacket"; "coat"; "parka"];
    ["sweater"; "knit"; "cardigan"];
    ["dress"];
    ["skirt"];
    ["jeans"; "denim"];
    ["pants"; "trousers"; "slacks"; "chinos"; "cargo"];
    ["shorts"];
    ["shoes"; "sneakers"; "trainers"; "boots"];
    ["bag"; "handbag"; "backpack"; "tote"];
    ["hat"; "cap"; "beanie"] ].

Fixpoint pickCategoryWith (groups : list (list string)) (pools : list string)
  : option string :=
  match groups with
  | [] => None
  | group :: rest =>
      if existsb (fun s => existsb (fun g => includes s g) group) pools
      then hd_error group
      else pickCategoryWith rest pools
  end.

Definition pickCategoryFromPools (pools : list string) : option string :=
  pickCategoryWith cats pools.

(** A JavaScript [Set<string>] keeps its members in insertion order; it is a
    duplicate-free list, and [add] appends a member that is not there yet. *)
Definition setAdd (found : list string) (x : string) : list string :=
  if existsb (String.eqb x) found then found else found ++ [x].

(** [new Set(xs)]. *)
Definition setOf (xs : list string) : list string :=
  fold_left setAdd xs [].

(** [for (const l of labelsLower) for (const w of words)
       if (l.includes(w)) found.add(w)], the body shared by [pickColors] and
    [pickPatterns]. *)
Definition collectWords (words labelsLower : list string) : list string :=
  fold_left
    (fun found l =>
       fold_left (fun found w => if includes l w then setAdd found w else found)
                 words found)
    labelsLower [].

Definition colorPalette : list string :=
  ["black"; "white"; "gray"; "grey"; "red"; "blue"; "green"; "yellow";
   "pink"; "purple"; "brown"; "beige"; "tan"; "orange"].

Definition pickColors (labelsLower : list string) : list string :=
  collectWords colorPalette labelsLower.

Definition pats : list string :=
  ["striped"; "plaid"; "checkered"; "floral"; "polka dot"; "graphic"; "logo";
   "solid"].

Definition pickPatterns (labelsLower : list string) : list string :=
  collectWords pats labelsLower.

(** The palette of [approxColorName], in source order.  Channel values are
    integers here; the squared distance is then exact. *)
Definition rgbPalette : list (string * (Z * Z * Z)) :=
  [ ("black", (0, 0, 0));
    ("white", (255, 255, 255));
    ("gray", (128, 128, 128));
    ("red", (220, 20, 60));
    ("blue", (65, 105, 225));
    ("green", (34, 139, 34));
    ("yellow", (255, 215, 0));
    ("pink", (255, 105, 180));
    ("purple", (138, 43, 226));
    ("brown", (139, 69, 19));
    ("beige", (245, 245, 220));
    ("orange", (255, 140, 0)) ]%Z.

(** One round of the loop of [approxColorName]; [bestDist = None] is
    [Infinity]. *)
Definition nearer (r g b : Z) (acc : option string * option Z)
  (entry : string * (Z * Z * Z)) : option string * option Z :=
  let '(name, (pr, pg, pb)) := entry in
  let d := ((r - pr) ^ 2 + (g - pg) ^ 2 + (b - pb) ^ 2)%Z in
  match snd acc with
  | None => (Some name, Some d)
  | Some bestDist => if (d <? bestDist)%Z then (Some name, Some d) else acc
  end.

Definition approxColorName (r g b : Z) : option string :=
  fst (fold_left (nearer r g b) rgbPalette (None, None)).

(* ================================================================== *)
(** ** The attribute extractor: reduction of the annotations *)
(* ================================================================== *)

(** A logo, label, text or web-entity annotation: only [description] is
    read. *)
Record Annotation : Type := mkAnnotation {
  description : option string
}.

(** A localized object: only [name] is read. *)
Record LocalizedObject : Type := mkLocalizedObject {
  name : option string
}.

(** [c.color] of a dominant colour. *)
Record Rgb : Type := mkRgb {
  red : option Z;
  green : option Z;
  blue : option Z
}.

Record ColorInfo : Type := mkColorInfo {
  color : option Rgb
}.

(** What the six annotation calls resolved to.  Each field is the value of
    the optional chain the extractor reads from the response
    ([logoRes[0]?.logoAnnotations],
    [webRes[0]?.webDetection?.webEntities],
    [propsRes[0]?.imagePropertiesAnnotation?.dominantColors?.colors], ...):
    [None] when the chain is nullish. *)
Record VisionResults : Type := mkVisionResults {
  logoAnnotations : option (list Annotation);
  labelAnnotations : option (list Annotation);
  textAnnotations : option (list Annotation);
  webEntities : option (list Annotation);
  localizedObjectAnnotations : option (list LocalizedObject);
  dominantColors : option (list ColorInfo)
}.

(** [x ?? ""] and [x ?? 0]. *)
Definition orElse {A : Type} (o : option A) (d : A) : A :=
  match o with
  | Some x => x
  | None => d
  end.

(** [c.color?.red ?? 0] and its siblings. *)
Definition channel (f : Rgb -> option Z) (c : ColorInfo) : Z :=
  match color c with
  | Some rgb => orElse (f rgb) 0%Z
  | None => 0%Z
  end.

(** The optional results of [.map(...)], kept when defined and not empty:
    [.filter(Boolean)] after a map to [string | undefined]. *)
Definition trimmedDescriptions (l : list Annotation) : list string :=
  filterTruthy (map (fun t => option_map trim (description t)) l).

Definition objectNames {strings : JsStrings} (l : list LocalizedObject)
  : list string :=
  filterTruthy
    (map (fun o => option_map (fun s => toLowerCase (trim s)) (name o)) l).

Definition colorNamesOf (domColors : list ColorInfo) : list string :=
  filterTruthy
    (map (fun c => approxColorName (channel red c) (channel green c)
                                   (channel blue c))
         (firstn 5 domColors)).

(** The searchable pools: [[...logoWords, ...labelWords, ...texts,
    ...webEntities, ...objects].map((s) => (s || "").toLowerCase())]. *)
Definition poolsOf {strings : JsStrings}
  (logoWords labelWords texts webEntities objects : list string)
  : list string :=
  map toLowerCase (logoWords ++ labelWords ++ texts ++ webEntities ++ objects).

(** Colour resolution:
    [Array.from(new Set([...pickColors(pools), ...colorNames])).slice(0, 3)]. *)
Definition resolveColors (pools colorNames : list string) : list string :=
  firstn 3 (setOf (pickColors pools ++ colorNames)).

(** The body of [extractAttributes] once the six calls have resolved. *)
Definition attributesOf {strings : JsStrings} (r : VisionResults)
  : Attributes :=
  let logos := orEmpty (logoAnnotations r) in
  let labels := orEmpty (labelAnnotations r) in
  let texts := trimmedDescriptions (orEmpty (textAnnotations r)) in
  let webEntities := trimmedDescriptions (orEmpty (webEntities r)) in
  let objects := objectNames (orEmpty (localizedObjectAnnotations r)) in
  let domColors := orEmpty (dominantColors r) in
  let colorNames := colorNamesOf domColors in
  let logoWords := map (fun l => orElse (description l) "") logos in
  let labelWords := map (fun l => orElse (description l) "") labels in
  let pools := poolsOf logoWords labelWords texts webEntities objects in
  let brand := normalizeBrand (pickBrandFromPools pools) in
  let category := pickCategoryFromPools pools in
  let patterns := pickPatterns (map toLowerCase (labelWords ++ webEntities)) in
  let colors := resolveColors pools colorNames in
  {| brand := brand;
     category := category;
     colors := Some colors;
     patterns := Some patterns;
     texts := Some texts |}.

(* ================================================================== *)
(** ** Effects: external calls and exceptions *)
(* ================================================================== *)

Definition Buffer : Type := string.

(** The settled state of a promise: fulfilled with a value, or rejected with
    an error of which only [err?.message] is ever read. *)
Inductive Settled (A : Type) : Type :=
| Fulfilled (a : A)
| Rejected (message : option string).

Arguments Fulfilled {A} a.
Arguments Rejected {A} message.

(** The request the adapter sends to the search service: the endpoint and
    the query parameters set on it, in the order they are set. *)
Record SearchRequest : Type := mkSearchRequest {
  endpoint : string;
  searchParams : list (string * string)
}.

(** A call that leaves the process. *)
Inductive Call : Type :=
| VisionCall (method : string) (image : Buffer)
| ProjectIdCall
| SearchCall (request : SearchRequest).

Definition Trace : Type := list Call.

Definition isSearchCall (c : Call) : bool :=
  match c with
  | SearchCall _ => true
  | _ => false
  end.

(** A computation of the route: it extends the trace of external calls and
    either returns or throws. *)
Definition Route (A : Type) : Type := Trace -> Settled A * Trace.

Definition ret {A : Type} (a : A) : Route A :=
  fun tr => (Fulfilled a, tr).

Definition throw {A : Type} (message : option string) : Route A :=
  fun tr => (Rejected message, tr).

Definition bind {A B : Type} (m : Route A) (k : A -> Route B) : Route B :=
  fun tr =>
    match m tr with
    | (Fulfilled a, tr') => k a tr'
    | (Rejected e, tr') => (Rejected e, tr')
    end.

(** Issue an external call whose promise settles as [r]; nothing is thrown
    until the promise is awaited. *)
Definition issue {A : Type} (c : Call) (r : Settled A) : Route (Settled A) :=
  fun tr => (Fulfilled r, (tr ++ [c])%list).

(** [await p]. *)
Definition await {A : Type} (p : Settled A) : Route A :=
  match p with
  | Fulfilled a => ret a
  | Rejected e => throw e
  end.

(** [try { m } catch (err) { return h(err) }] around a whole function
    body. *)
Definition tryCatch {A : Type} (m : Route A) (h : option string -> A)
  : Trace -> A * Trace :=
  fun tr =>
    match m tr with
    | (Fulfilled a, tr') => (a, tr')
    | (Rejected e, tr') => (h e, tr')
    end.

Declare Scope route_scope.
Delimit Scope route_scope with route.

Notation "x <- m ;; k" := (bind m (fun x => k))
  (at level 61, m at next level, right associativity) : route_scope.

(* ================================================================== *)
(** ** The annotation service *)
(* ================================================================== *)

(** The Vision client.  [webDetection], [objectLocalization] and
    [imageProperties] are missing on some versions of the SDK: the route
    checks [typeof ... === "function"] before it calls them. *)
Record VisionClient : Type := mkVisionClient {
  logoDetection : Buffer -> Settled (option (list Annotation));
  labelDetection : Buffer -> Settled (option (list Annotation));
  textDetection : Buffer -> Settled (option (list Annotation));
  webDetection : option (Buffer -> Settled (option (list Annotation)));
  objectLocalization : option (Buffer -> Settled (option (list LocalizedObject)));
  imageProperties : option (Buffer -> Settled (option (list ColorInfo)));
  getProjectId : Settled string
}.

(** A guarded call: [typeof client.m === "function" ? client.m(...) :
    Promise.resolve([{}])]; the chain read from [[{}]] is nullish. *)
Definition guarded {A : Type} (method : string)
  (m : option (Buffer -> Settled (option A))) (image : Buffer)
  : Route (Settled (option A)) :=
  match m with
  | Some f => issue (VisionCall method image) (f image)
  | None => ret (Fulfilled None)
  end.

Open Scope route_scope.

(** [extractAttributes(imageBuffer)].  The six calls are issued first, in
    source order; [await Promise.all([...])] then throws when one of them
    rejected (the rejection taken here is the first in array order). *)
Definition extractAttributes {strings : JsStrings} (client : VisionClient)
  (imageBuffer : Buffer) : Route Attributes :=
  logoP <- issue (VisionCall "logoDetection" imageBuffer)
                 (logoDetection client imageBuffer) ;;
  labelP <- issue (VisionCall "labelDetection" imageBuffer)
                  (labelDetection client imageBuffer) ;;
  textP <- issue (VisionCall "textDetection" imageBuffer)
                 (textDetection client imageBuffer) ;;
  webP <- guarded "webDetection" (webDetection client) imageBuffer ;;
  objP <- guarded "objectLocalization" (objectLocalization client) imageBuffer ;;
  propsP <- guarded "imageProperties" (imageProperties client) imageBuffer ;;
  logoRes <- await logoP ;;
  labelRes <- await labelP ;;
  textRes <- await textP ;;
  webRes <- await webP ;;
  objRes <- await objP ;;
  propsRes <- await propsP ;;
  ret (attributesOf
         {| logoAnnotations := logoRes;
            labelAnnotations := labelRes;
            textAnnotations := textRes;
            webEntities := webRes;
            localizedObjectAnnotations := objRes;
            dominantColors := propsRes |}).

Close Scope route_scope.

(* ================================================================== *)
(** ** The shopping search adapter *)
(* ================================================================== *)

(** The runtime's [number] type.  The adapter does no arithmetic on numbers:
    it turns the array index into one and formats one with the built-in
    [Number.prototype.toFixed]; the interface has just these. *)
Class JsNumbers : Type := {
  Number : Type;
  (** the index [i] handed to the callback of [Array.prototype.map] *)
  numberOfIndex : nat -> Number;
  (** [x.toFixed(2)] *)
  toFixed2 : Number -> string
}.

Section Runtime.

Context {numbers : JsNumbers} {strings : JsStrings}.

(** A value read from the parsed JSON of the search service, or
    [undefined] for a property that is not there. *)
#[warnings="-register-all"] Inductive JsValue : Type :=
| JUndefined
| JNull
| JBoolean (b : bool)
| JNumber (n : Number)
| JString (s : string)
| JArray (items : list JsValue)
| JObject (fields : list (string * JsValue)).

Definition isNullish (v : JsValue) : bool :=
  match v with
  | JUndefined | JNull => true
  | _ => false
  end.

(** [a ?? b]. *)
Definition coalesce (a b : JsValue) : JsValue :=
  if isNullish a then b else a.

(** One element of [json.shopping_results]: the properties the adapter
    reads. *)
Record ShoppingResult : Type := mkShoppingResult {
  product_id : JsValue;
  position : JsValue;
  res_title : JsValue;
  res_price : JsValue;
  extracted_price : JsValue;
  source : JsValue;
  domain : JsValue;
  link : JsValue;
  thumbnail : JsValue
}.

(** [MatchItem] as the adapter builds it: the service's values are copied
    unchecked. *)
Record MatchItem : Type := mkMatchItem {
  id : JsValue;
  title : JsValue;
  price : JsValue;
  store : JsValue;
  url : JsValue;
  image : JsValue;
  match_ : JsValue
}.

(** [typeof it.extracted_price === "number"
      ? `$${it.extracted_price.toFixed(2)}` : undefined]. *)
Definition formattedPrice (extracted : JsValue) : JsValue :=
  match extracted with
  | JNumber x => JString ("$" ++ toFixed2 x)
  | _ => JUndefined
  end.

(** The callback of [.map((it, i) => ({ ... }))]. *)
Definition toMatchItem (it : ShoppingResult) (i : nat) : MatchItem :=
  {| id := coalesce (coalesce (product_id it) (position it))
                    (JNumber (numberOfIndex i));
     title := res_title it;
     price := coalesce (res_price it) (formattedPrice (extracted_price it));
     store := coalesce (source it) (domain it);
     url := link it;
     image := thumbnail it;
     match_ := JUndefined |}.

(** [Array.prototype.map] with the index, counting from [i]. *)
Fixpoint mapFrom {A B : Type} (f : A -> nat -> B) (i : nat) (l : list A)
  : list B :=
  match l with
  | [] => []
  | x :: l' => f x i :: mapFrom f (S i) l'
  end.

(** [items.slice(0, 12).map(...)]. *)
Definition toMatches (items : list ShoppingResult) : list MatchItem :=
  mapFrom toMatchItem 0 (firstn 12 items).

(** The parsed body of a search response. *)
Record SearchJson : Type := mkSearchJson {
  shopping_results : option (list ShoppingResult)
}.

Record FetchResponse : Type := mkFetchResponse {
  ok : bool;
  res_status : nat;
  json : Settled SearchJson
}.

(** The search service and the key of the process environment. *)
Record SearchService : Type := mkSearchService {
  SERPAPI_KEY : option string;
  fetch : SearchRequest -> Settled FetchResponse
}.

(** A number in a template literal. *)
Definition decimal (n : nat) : string :=
  NilZero.string_of_uint (Nat.to_uint n).

Definition searchUrl (query apiKey : string) : SearchRequest :=
  {| endpoint := "https://serpapi.com/search.json";
     searchParams :=
       [ ("engine", "google_shopping");
         ("q", query);
         ("hl", "en");
         ("gl", "us");
         ("api_key", apiKey) ] |}.

Open Scope route_scope.

Definition searchShopping (search : SearchService) (query : string)
  : Route (list MatchItem) :=
  if negb (truthy (SERPAPI_KEY search))
  then throw (Some "Missing SERPAPI_KEY")
  else
    let url := searchUrl query (orElse (SERPAPI_KEY search) "") in
    resP <- issue (SearchCall url) (fetch search url) ;;
    res <- await resP ;;
    if negb (ok res)
    then throw (Some ("SerpAPI failed: " ++ decimal (res_status res)))
    else
      json <- await (json res) ;;
      ret (toMatches (orEmpty (shopping_results json))).

(* ================================================================== *)
(** ** The request orchestrator *)
(* ================================================================== *)

Record File : Type := mkFile {
  file_name : string;
  file_type : string;
  file_size : nat;
  arrayBuffer : Buffer
}.

(** A [FormDataEntryValue]. *)
Inductive FormEntry : Type :=
| EntryString (s : string)
| EntryFile (f : File).

(** [form.get("file")] and [form.get("tiktokUrl")]; [None] is [null]. *)
Record FormData : Type := mkFormData {
  form_file : option FormEntry;
  form_tiktokUrl : option FormEntry
}.

Record Request : Type := mkRequest {
  debugParam : option string;       (* url.searchParams.get("debug") *)
  formData : Settled FormData       (* await req.formData() *)
}.

(** [url.searchParams.get("debug") === "1"]. *)
Definition debugRequested (req : Request) : bool :=
  match debugParam req with
  | Some v => v =? "1"
  | None => false
  end.

(** Truthiness of a form entry or [null]. *)
Definition entryTruthy (e : option FormEntry) : bool :=
  match e with
  | None => false
  | Some (EntryString s) => negb (s =? "")
  | Some (EntryFile _) => true
  end.

Record DebugInfo : Type := mkDebugInfo {
  dbg_projectId : option string;
  dbg_query : string;
  dbg_attributes : Attributes;
  dbg_count : nat;
  dbg_dry : option bool
}.

(** The JSON body; a key that the object literal does not have is [None]. *)
Record Body : Type := mkBody {
  matches : option (list MatchItem);
  note : option string;
  debug : option DebugInfo;
  error : option string
}.

Record Response : Type := mkResponse {
  body : Body;
  status : nat
}.

(** [{ matches, ...(debug ? { debug: info } : {}) }] with status 200. *)
Definition matchesResponse (ms : list MatchItem) (dbg : bool) (info : DebugInfo)
  : Response :=
  {| body := {| matches := Some ms;
                note := None;
                debug := if dbg then Some info else None;
                error := None |};
     status := 200 |}.

Definition errorResponse (message : string) (code : nat) : Response :=
  {| body := {| matches := None;
                note := None;
                debug := None;
                error := Some message |};
     status := code |}.

Definition placeholderResponse : Response :=
  {| body := {| matches := Some [];
                note := Some "Upload a screenshot of the outfit moment for best results.";
                debug := None;
                error := None |};
     status := 200 |}.

(** [await (file as File).arrayBuffer()]: a text entry has no such method. *)
Definition readFile (e : option FormEntry) : Route Buffer :=
  match e with
  | Some (EntryFile f) => ret (arrayBuffer f)
  | _ => throw (Some "file.arrayBuffer is not a function")
  end.

(** [await visionClient.getProjectId().catch(() => undefined)]. *)
Definition projectIdOf (client : VisionClient) : Route (option string) :=
  p <- issue ProjectIdCall (getProjectId client) ;;
  ret (match p with
       | Fulfilled pid => Some pid
       | Rejected _ => None
       end).

(** The body of the [try] block of [POST], for a value [useSerpapi] of the
    toggle [USE_SERPAPI]. *)
Definition handle (useSerpapi : bool) (client : VisionClient)
  (search : SearchService) (req : Request) : Route Response :=
  let dbg := debugRequested req in
  form <- await (formData req) ;;
  let file := form_file form in
  let tiktokUrl := form_tiktokUrl form in
  if negb (entryTruthy file) && negb (entryTruthy tiktokUrl)
  then ret (errorResponse "Provide a file or a TikTok URL" 400)
  else if negb (entryTruthy file) && entryTruthy tiktokUrl
  then ret placeholderResponse
  else
    buf <- readFile file ;;
    attributes <- extractAttributes client buf ;;
    let '(query, attributes) := buildQuery attributes in
    projectId <- projectIdOf client ;;
    if query =? ""
    then ret (matchesResponse [] dbg
                {| dbg_projectId := projectId;
                   dbg_query := query;
                   dbg_attributes := attributes;
                   dbg_count := 0;
                   dbg_dry := None |})
    else if negb useSerpapi
    then ret (matchesResponse [] dbg
                {| dbg_projectId := projectId;
                   dbg_query := query;
                   dbg_attributes := attributes;
                   dbg_count := 0;
                   dbg_dry := Some true |})
    else
      ms <- searchShopping search query ;;
      ret (matchesResponse ms dbg
             {| dbg_projectId := projectId;
                dbg_query := query;
                dbg_attributes := attributes;
                dbg_count := List.length ms;
                dbg_dry := None |}).

Close Scope route_scope.

(** [POST] for a value of the toggle: the [try] block and its [catch]. *)
Definition POSTWith (useSerpapi : bool) (client : VisionClient)
  (search : SearchService) (req : Request) : Response * Trace :=
  tryCatch (handle useSerpapi client search req)
           (fun message => errorResponse (orElse message "Processing failed") 500)
           [].

(** [const USE_SERPAPI = false;] *)
Definition USE_SERPAPI : bool := false.

(** [export async function POST(req)]. *)
Definition POST (client : VisionClient) (search : SearchService) (req : Request)
  : Response * Trace :=
  POSTWith USE_SERPAPI client search req.

End Runtime.

Arguments POST {numbers strings} client search req.
Arguments POSTWith {numbers strings} useSerpapi client search req.

(* ================================================================== *)
(** ** Specification-side definitions *)
(* ================================================================== *)

(** The OCR text the builder runs its regular expression on. *)
Definition ocrText {strings : JsStrings} (a : Attributes) : string :=
  toLowerCase (join " " (orEmpty (texts a))).

(** The query as the specification words it, read on the record handed to
    the builder: the brand, the category, the first color, the first pattern
    and the token [buy], in this order, joined by single spaces; a field the
    record does not have contributes nothing. *)
Definition optWord (o : option string) : list string :=
  match o with
  | Some s => [s]
  | None => []
  end.

Definition firstWord (o : option (list string)) : list string :=
  match o with
  | Some (x :: _) => [x]
  | _ => []
  end.

Definition specQuery (a : Attributes) : string :=
  join " " (optWord (brand a) ++ optWord (category a) ++ firstWord (colors a)
            ++ firstWord (patterns a) ++ ["buy"]).

(** A field that is there and not empty, followed by its separator. *)
Definition spaced (o : option string) : string :=
  match o with
  | Some s => if s =? "" then "" else s ++ " "
  | None => ""
  end.

(** The first element of a list that is there and not empty, followed by its
    separator. *)
Definition spacedFirst (o : option (list string)) : string :=
  match o with
  | Some (x :: _) => x ++ " "
  | _ => ""
  end.

(** Every word of a list followed by a space. *)
Fixpoint spacedAll (l : list string) : string :=
  match l with
  | [] => ""
  | s :: l' => s ++ " " ++ spacedAll l'
  end.

(** [c] is the first byte of a white-space character. *)
Definition opensSpace (c : ascii) : bool :=
  existsb (fun p => match p with
                    | String d _ => Ascii.eqb d c
                    | EmptyString => false
                    end)
          whiteSpace.

(** An optional word that, when there, is not empty and does not begin with
    white space. *)
Definition cleanWord (o : option string) : bool :=
  match o with
  | Some (String c _) => negb (opensSpace c)
  | Some EmptyString => false
  | None => true
  end.

(** The bytes of [p] differ from [b]. *)
Fixpoint avoids (b : ascii) (p : string) : bool :=
  match p with
  | EmptyString => true
  | String c p' => negb (Ascii.eqb c b) && avoids b p'
  end.

(** A keyword without a space in it. *)
Fixpoint noSpaceIn (k : string) : bool :=
  match k with
  | EmptyString => true
  | String c k' => negb (Ascii.eqb c " ") && noSpaceIn k'
  end.

(** The words the extractor pools, before the pool is lower-cased. *)
Definition logoWordsOf (r : VisionResults) : list string :=
  map (fun l => orElse (description l) "") (orEmpty (logoAnnotations r)).

Definition labelWordsOf (r : VisionResults) : list string :=
  map (fun l => orElse (description l) "") (orEmpty (labelAnnotations r)).

Definition textsOf (r : VisionResults) : list string :=
  trimmedDescriptions (orEmpty (textAnnotations r)).

Definition webEntitiesOf (r : VisionResults) : list string :=
  trimmedDescriptions (orEmpty (webEntities r)).

Definition objectsOf {strings : JsStrings} (r : VisionResults) : list string :=
  objectNames (orEmpty (localizedObjectAnnotations r)).

(** A request carries a form field when its form data can be read and has an
    entry of that name. *)
Definition carriesFile (req : Request) : bool :=
  match formData req with
  | Fulfilled form =>
      match form_file form with
      | Some _ => true
      | None => false
      end
  | Rejected _ => false
  end.

Definition carriesTiktokUrl (req : Request) : bool :=
  match formData req with
  | Fulfilled form =>
      match form_tiktokUrl form with
      | Some _ => true
      | None => false
      end
  | Rejected _ => false
  end.

(** The configured brand keywords, in map order. *)
Definition brandKeys : list string := map fst brandMap.

(** Brand resolution as the specification words it: the first keyword, in
    map order, that occurs anywhere in the pool names the brand. *)
Definition specBrand (pools : list string) : option string :=
  option_map snd
    (find (fun entry => existsb (fun s => includes s (fst entry)) pools)
          brandMap).

(** A trace without a call to the search service. *)
Definition noSearch (tr : Trace) : Prop := existsb isSearchCall tr = false.

(** A computation that makes no external call. *)
Definition silent {A : Type} (m : Route A) : Prop :=
  forall tr, snd (m tr) = tr.

(** The calls of [extractAttributes], whatever they resolve to: the three
    plain ones and those of the guarded three that the client has. *)
Definition guardedCall {A : Type} (method : string) (m : option A)
  (image : Buffer) : Trace :=
  match m with
  | Some _ => [VisionCall method image]
  | None => []
  end.

Definition visionCalls (client : VisionClient) (image : Buffer) : Trace :=
  ([VisionCall "logoDetection" image;
    VisionCall "labelDetection" image;
    VisionCall "textDetection" image]
   ++ guardedCall "webDetection" (webDetection client) image
   ++ guardedCall "objectLocalization" (objectLocalization client) image
   ++ guardedCall "imageProperties" (imageProperties client) image)%list.

(** Some keyword of [group] occurs in some entry of [pools]: the test of
    [pickCategoryFromPools]. *)
Definition groupIn (pools group : list string) : bool :=
  existsb (fun s => existsb (fun g => includes s g) group) pools.

(** The keyword [k] occurs in some entry of [pools]. *)
Definition keywordIn (pools : list string) (k : string) : bool :=
  existsb (fun s => includes s k) pools.

(** The squared distance of [approxColorName]. *)
Definition sqDist (r g b : Z) (p : Z * Z * Z) : Z :=
  let '(pr, pg, pb) := p in
  ((r - pr) ^ 2 + (g - pg) ^ 2 + (b - pb) ^ 2)%Z.

Definition isRejected {A : Type} (p : Settled A) : bool :=
  match p with
  | Rejected _ => true
  | Fulfilled _ => false
  end.

(** An optional method that is there and whose call rejects. *)
Definition guardedRejected {A : Type}
  (m : option (Buffer -> Settled (option A))) (image : Buffer) : bool :=
  match m with
  | Some f => isRejected (f image)
  | None => false
  end.

(** One of the annotation calls that [extractAttributes] issues rejects. *)
Definition anyRejected (client : VisionClient) (image : Buffer) : bool :=
  isRejected (logoDetection client image)
  || isRejected (labelDetection client image)
  || isRejected (textDetection client image)
  || guardedRejected (webDetection client) image
  || guardedRejected (objectLocalization client) image
  || guardedRejected (imageProperties client) image.

(** The annotations a call contributes when it is fulfilled. *)
Definition settledValue {A : Type} (p : Settled (option (list A)))
  : option (list A) :=
  match p with
  | Fulfilled v => v
  | Rejected _ => None
  end.

Definition guardedValue {A : Type}
  (m : option (Buffer -> Settled (option (list A)))) (image : Buffer)
  : option (list A) :=
  match m with
  | Some f => settledValue (f image)
  | None => None
  end.

(** What the annotation calls of a client resolve to for an image. *)
Definition resultsOf (client : VisionClient) (image : Buffer) : VisionResults :=
  {| logoAnnotations := settledValue (logoDetection client image);
     labelAnnotations := settledValue (labelDetection client image);
     textAnnotations := settledValue (textDetection client image);
     webEntities := guardedValue (webDetection client) image;
     localizedObjectAnnotations := guardedValue (objectLocalization client) image;
     dominantColors := guardedValue (imageProperties client) image |}.

(** The same client with another answer to [getProjectId]. *)
Definition withProjectId (client : VisionClient) (p : Settled string)
  : VisionClient :=
  {| logoDetection := logoDetection client;
     labelDetection := labelDetection client;
     textDetection := textDetection client;
     webDetection := webDetection client;
     objectLocalization := objectLocalization client;
     imageProperties := imageProperties client;
     getProjectId := p |}.

(* ================================================================== *)
(** ** Sample data *)
(* ================================================================== *)

(** [{brand: "Nike", category: "t-shirt", colors: ["black"]}]. *)
Definition nikeBlackTee : Attributes :=
  mkAttributes (Some "Nike") (Some "t-shirt") (Some ["black"]) None None.

(** No brand, no category, and an OCR text that reads "Vintage TEE". *)
Definition teeTextOnly : Attributes :=
  mkAttributes None None (Some []) (Some []) (Some ["Vintage"; "TEE"]).

(** A brand, no category, and the word "tee" among the OCR texts. *)
Definition nikeWithTeeText : Attributes :=
  mkAttributes (Some "Nike") None (Some ["white"]) (Some []) (Some ["tee"]).

(** A record that has a category of its own. *)
Definition adidasHoodie : Attributes :=
  mkAttributes (Some "Adidas") (Some "hoodie") (Some ["grey"; "black"])
               (Some ["logo"]) (Some ["ADIDAS"; "tee"]).

(** The record of the specification's example with a space in front of the
    brand. *)
Definition paddedNikeTee : Attributes :=
  mkAttributes (Some " Nike") (Some "t-shirt") (Some ["black"]) None None.

(** A logo that reads "Adidas" and a label that reads "NIKE Air". *)
Definition adidasLogoNikeLabel : list string := ["Adidas"; "NIKE Air"].

(** The runtime on ASCII text, where [toLowerCase] maps [A] to [Z] only:
    the instance the sample data, all of it ASCII, is evaluated in. *)
#[export, refine] Instance asciiStrings : JsStrings := {
  toLowerCase := asciiToLowerCase
}.
Proof.
  assert (Happ : forall s t,
            asciiToLowerCase (s ++ t) = asciiToLowerCase s ++ asciiToLowerCase t).
  { induction s as [|c s IH]; intros t; simpl; [reflexivity | now rewrite IH]. }
  intros texts. unfold join.
  induction texts as [|t texts IH]; [reflexivity|].
  destruct texts as [|t' texts]; [reflexivity|].
  change (String.concat " " (t :: t' :: texts))
    with (t ++ " " ++ String.concat " " (t' :: texts)).
  rewrite !Happ, IH. reflexivity.
Defined.

(** Prices with two decimals, held as a count of hundredths: a small
    instance of the number interface for the sample data. *)
Definition twoDigits (n : nat) : string :=
  if (n <? 10)%nat then "0" ++ decimal n else decimal n.

#[export] Instance centNumbers : JsNumbers := {|
  Number := nat;
  numberOfIndex := fun i => 100 * i;
  toFixed2 := fun n => decimal (n / 100) ++ "." ++ twoDigits (n mod 100)
|}.

(** A Vision client that sees a black Nike tee; its SDK has no
    [webDetection]. *)
Definition nikeTeeClient : VisionClient :=
  {| logoDetection := fun _ => Fulfilled (Some [mkAnnotation (Some "Nike")]);
     labelDetection := fun _ =>
       Fulfilled (Some [mkAnnotation (Some "T-shirt");
                        mkAnnotation (Some "Black")]);
     textDetection := fun _ =>
       Fulfilled (Some [mkAnnotation (Some " JUST DO IT ")]);
     webDetection := None;
     objectLocalization :=
       Some (fun _ => Fulfilled (Some [mkLocalizedObject (Some "Top")]));
     imageProperties :=
       Some (fun _ =>
               Fulfilled
                 (Some [mkColorInfo
                          (Some (mkRgb (Some 12%Z) (Some 10%Z) (Some 14%Z)))]));
     getProjectId := Fulfilled "outfit-scanner" |}.

(** What the calls of [nikeTeeClient] resolve to. *)
Definition nikeTeeResults : VisionResults :=
  {| logoAnnotations := Some [mkAnnotation (Some "Nike")];
     labelAnnotations := Some [mkAnnotation (Some "T-shirt");
                               mkAnnotation (Some "Black")];
     textAnnotations := Some [mkAnnotation (Some " JUST DO IT ")];
     webEntities := None;
     localizedObjectAnnotations := Some [mkLocalizedObject (Some "Top")];
     dominantColors :=
       Some [mkColorInfo (Some (mkRgb (Some 12%Z) (Some 10%Z) (Some 14%Z)))] |}.

(** An Adidas logo on an image whose label reads "NIKE Air". *)
Definition adidasLogoNikeLabelResults : VisionResults :=
  {| logoAnnotations := Some [mkAnnotation (Some "Adidas")];
     labelAnnotations := Some [mkAnnotation (Some "NIKE Air")];
     textAnnotations := None;
     webEntities := None;
     localizedObjectAnnotations := None;
     dominantColors := None |}.

(** Three results of the search service: one with a product id and a
    formatted price, one with a position and a numeric price only, one with
    neither id nor price. *)
Definition shoppingResults : list ShoppingResult :=
  [ {| product_id := JString "p-100";
       position := JNumber 100;
       res_title := JString "Nike Sportswear Tee";
       res_price := JString "$25.00";
       extracted_price := JNumber 2500;
       source := JString "Nike";
       domain := JUndefined;
       link := JString "https://shop.example/p-100";
       thumbnail := JString "https://img.example/p-100.png" |};
    {| product_id := JNull;
       position := JNumber 200;
       res_title := JString "Black T-Shirt";
       res_price := JUndefined;
       extracted_price := JNumber 2999;
       source := JUndefined;
       domain := JString "shop.example";
       link := JString "https://shop.example/p-200";
       thumbnail := JUndefined |};
    {| product_id := JUndefined;
       position := JUndefined;
       res_title := JString "Plain Tee";
       res_price := JNull;
       extracted_price := JString "n/a";
       source := JUndefined;
       domain := JUndefined;
       link := JUndefined;
       thumbnail := JUndefined |} ].

Definition shopService : SearchService :=
  {| SERPAPI_KEY := Some "test-key";
     fetch := fun _ =>
       Fulfilled {| ok := true;
                    res_status := 200;
                    json := Fulfilled {| shopping_results := Some shoppingResults |} |} |}.

(** The environment without a key for the search service. *)
Definition keylessService : SearchService :=
  {| SERPAPI_KEY := None; fetch := fetch shopService |}.

(** A search service that answers 429. *)
Definition overQuotaService : SearchService :=
  {| SERPAPI_KEY := Some "test-key";
     fetch := fun _ =>
       Fulfilled {| ok := false;
                    res_status := 429;
                    json := Rejected (Some "Unexpected token") |} |}.

(** The client of the sample whose label detection fails. *)
Definition failingClient : VisionClient :=
  {| logoDetection := logoDetection nikeTeeClient;
     labelDetection := fun _ => Rejected (Some "7 PERMISSION_DENIED");
     textDetection := textDetection nikeTeeClient;
     webDetection := webDetection nikeTeeClient;
     objectLocalization := objectLocalization nikeTeeClient;
     imageProperties := imageProperties nikeTeeClient;
     getProjectId := getProjectId nikeTeeClient |}.

(** A client that sees nothing in the image. *)
Definition blindClient : VisionClient :=
  {| logoDetection := fun _ => Fulfilled None;
     labelDetection := fun _ => Fulfilled (Some []);
     textDetection := fun _ => Fulfilled None;
     webDetection := None;
     objectLocalization := None;
     imageProperties := None;
     getProjectId := Rejected (Some "Unable to detect a Project Id") |}.

Definition screenshot : File :=
  {| file_name := "look.png";
     file_type := "image/png";
     file_size := 4;
     arrayBuffer := "PNG." |}.

(** An upload of a screenshot, sent with [?debug=1] as the client does. *)
Definition uploadRequest : Request :=
  {| debugParam := Some "1";
     formData := Fulfilled {| form_file := Some (EntryFile screenshot);
                              form_tiktokUrl := None |} |}.

(** A form with neither field, sent with [?debug=1]. *)
Definition emptyRequest : Request :=
  {| debugParam := Some "1";
     formData := Fulfilled {| form_file := None; form_tiktokUrl := None |} |}.

(** A request whose body cannot be read as form data. *)
Definition unreadableRequest : Request :=
  {| debugParam := None;
     formData := Rejected (Some "Failed to parse body as FormData.") |}.

(** A form whose only field is an empty [tiktokUrl]. *)
Definition blankLinkRequest : Request :=
  {| debugParam := None;
     formData :=
       Fulfilled {| form_file := None;
                    form_tiktokUrl := Some (EntryString "") |} |}.

(** A form with a TikTok link only. *)
Definition linkRequest : Request :=
  {| debugParam := Some "1";
     formData :=
       Fulfilled {| form_file := None;
                    form_tiktokUrl :=
                      Some (EntryString "https://www.tiktok.com/@look/video/1") |} |}.

(* ================================================================== *)
(** ** The embedding on sample inputs *)
(* ================================================================== *)

Example tshirtRegex_needs_boundaries :
  tshirtRegexTest "streetwear" = false /\
  tshirtRegexTest "shirts" = false /\
  tshirtRegexTest "a t-shirt." = true /\
  tshirtRegexTest "tshirt" = true /\
  tshirtRegexTest "sweat-shirt" = true.
Proof. repeat split; reflexivity. Qed.

Example buildQuery_infers_tee :
  buildQuery teeTextOnly
  = ("t-shirt buy",
     mkAttributes None (Some "t-shirt") (Some []) (Some [])
                  (Some ["Vintage"; "TEE"])).
Proof. reflexivity. Qed.

(** [trim] strips the white space of ECMAScript, here a no-break space in
    front and an ideographic space behind, and no other character. *)
Example trim_strips_unicode_space :
  trim (utf8 160 ++ " Nike Air" ++ utf8 12288 ++ utf8 65279) = "Nike Air" /\
  trim (utf8 8203 ++ "Nike") = utf8 8203 ++ "Nike".
Proof. split; reflexivity. Qed.

(** On a record made by hand with white space in front of the brand, the
    query loses it. *)
Example buildQuery_trims_padded_brand :
  queryOf paddedNikeTee = "Nike t-shirt black buy" /\
  specQuery paddedNikeTee = " Nike t-shirt black buy".
Proof. split; reflexivity. Qed.

(** The inferred category takes its place in the query. *)
Example buildQuery_inferred_category_in_query :
  queryOf nikeWithTeeText = "Nike t-shirt white buy" /\
  specQuery nikeWithTeeText = "Nike white buy".
Proof. split; reflexivity. Qed.

Example approxColorName_navy : approxColorName 60 100 230 = Some "blue".
Proof. reflexivity. Qed.

Example pickCategory_group_order :
  pickCategoryFromPools ["blue jeans"; "graphic tee"] = Some "t-shirt".
Proof. reflexivity. Qed.

Example pickColors_insertion_order :
  pickColors ["red and black"; "black"; "dark grey"] = ["black"; "red"; "grey"].
Proof. reflexivity. Qed.

Example extractAttributes_nikeTee :
  extractAttributes nikeTeeClient "PNG." []
  = (Fulfilled (mkAttributes (Some "Nike") (Some "t-shirt") (Some ["black"])
                             (Some []) (Some ["JUST DO IT"])),
     [VisionCall "logoDetection" "PNG.";
      VisionCall "labelDetection" "PNG.";
      VisionCall "textDetection" "PNG.";
      VisionCall "objectLocalization" "PNG.";
      VisionCall "imageProperties" "PNG."]).
Proof. reflexivity. Qed.

(** With the toggle on, the same upload reaches the search service. *)
Example POSTWith_true_searches :
  let result := POSTWith true nikeTeeClient shopService uploadRequest in
  status (fst result) = 200 /\
  option_map (@List.length _) (matches (body (fst result))) = Some 3 /\
  existsb isSearchCall (snd result) = true.
Proof. repeat split; reflexivity. Qed.

(** With the toggle on and no key in the environment, the search throws and
    the route answers 500 without calling the service. *)
Example POSTWith_true_missing_key :
  let result :=
    POSTWith true nikeTeeClient
             {| SERPAPI_KEY := None; fetch := fetch shopService |}
             uploadRequest in
  status (fst result) = 500 /\
  error (body (fst result)) = Some "Missing SERPAPI_KEY" /\
  existsb isSearchCall (snd result) = false.
Proof. repeat split; reflexivity. Qed.

(* ================================================================== *)
(** ** Strings *)
(* ================================================================== *)

Lemma string_app_assoc (s t u : string) : (s ++ t) ++ u = s ++ (t ++ u).
Proof.
  induction s as [|c s IH]; simpl; [reflexivity | now rewrite IH].
Qed.

Lemma string_app_empty_r (s : string) : s ++ "" = s.
Proof.
  induction s as [|c s IH]; simpl; [reflexivity | now rewrite IH].
Qed.

(** Reassociate a chain of string concatenations. *)
Ltac string_assoc :=
  repeat first [ rewrite string_app_assoc
               | rewrite string_app_empty_r
               | progress simpl ];
  reflexivity.

Lemma spacedAll_app (p q : list string) :
  spacedAll (p ++ q) = spacedAll p ++ spacedAll q.
Proof.
  induction p as [|s p IH]; simpl; [reflexivity|].
  rewrite IH. now rewrite string_app_assoc.
Qed.

(** Joining with a final word: every earlier word is followed by one space. *)
Lemma join_snoc (l : list string) (x : string) :
  join " " (l ++ [x]) = spacedAll l ++ x.
Proof.
  unfold join.
  induction l as [|s l IH]; [reflexivity|].
  change ((s :: l) ++ [x])%list with (s :: (l ++ [x]))%list.
  destruct l as [|t l].
  - string_assoc.
  - change (String.concat " " (s :: (t :: l) ++ [x]))
      with (s ++ " " ++ String.concat " " ((t :: l) ++ [x])).
    rewrite IH. string_assoc.
Qed.

Lemma pushIfTruthy_spaced (parts : list string) (o : option string) :
  spacedAll (pushIfTruthy parts o) = spacedAll parts ++ spaced o.
Proof.
  destruct o as [s|]; simpl; [destruct (s =? "")|];
    rewrite ?spacedAll_app; string_assoc.
Qed.

Lemma pushFirst_spaced (parts : list string) (o : option (list string)) :
  spacedAll (pushFirst parts o) = spacedAll parts ++ spacedFirst o.
Proof.
  destruct o as [[|x l]|]; simpl; rewrite ?spacedAll_app; string_assoc.
Qed.

(* ------------------------------------------------------------------ *)
(** *** White space and [trim] *)

Lemma dropPrefix_length (p s r : string) :
  dropPrefix p s = Some r ->
  String.length s = String.length p + String.length r.
Proof.
  revert s. induction p as [|c p IH]; intros s; simpl.
  - now intros [= ->].
  - destruct s as [|d s]; [discriminate|].
    destruct (Ascii.eqb c d); [|discriminate].
    intros H. simpl. now rewrite (IH s H).
Qed.

Lemma dropAny_In (ps : list string) (s r : string) :
  dropAny ps s = Some r -> exists p, In p ps /\ dropPrefix p s = Some r.
Proof.
  induction ps as [|p ps IH]; simpl; [discriminate|].
  destruct (dropPrefix p s) as [r'|] eqn:E.
  - intros [= <-]. exists p. split; [now left | exact E].
  - intros H. destruct (IH H) as (q & Hq & Hdrop). exists q.
    split; [now right | exact Hdrop].
Qed.

Lemma whiteSpace_nonempty : Forall (fun p => p <> "") whiteSpace.
Proof.
  repeat constructor; discriminate.
Qed.

(** Dropping a white-space character makes the string shorter. *)
Lemma dropSpace_shorter (s r : string) :
  dropSpace s = Some r -> String.length r < String.length s.
Proof.
  intros H. apply dropAny_In in H as (p & Hp & Hdrop).
  apply dropPrefix_length in Hdrop.
  pose proof (proj1 (Forall_forall _ _) whiteSpace_nonempty p Hp) as Hne.
  destruct p; [contradiction|]. simpl in Hdrop. lia.
Qed.

Lemma trimStartUpTo_done (n : nat) (s : string) :
  String.length s <= n -> dropSpace (trimStartUpTo n s) = None.
Proof.
  revert s. induction n as [|n IH]; intros s Hlen.
  - destruct s; [reflexivity | simpl in Hlen; lia].
  - simpl. destruct (dropSpace s) as [r|] eqn:E; [|exact E].
    apply IH. apply dropSpace_shorter in E. lia.
Qed.

(** The bound of [trimStart] is enough: nothing is left to strip. *)
Lemma trimStart_done (s : string) : dropSpace (trimStart s) = None.
Proof.
  apply trimStartUpTo_done. reflexivity.
Qed.

Lemma dropPrefix_before (b : ascii) (p y z r : string) :
  avoids b p = true ->
  dropPrefix p (y ++ String b z) = Some r ->
  exists y', r = y' ++ String b z.
Proof.
  revert y. induction p as [|c p IH]; intros y Hp; simpl.
  - intros [= <-]. now exists y.
  - simpl in Hp. apply andb_true_iff in Hp as [Hc Hp].
    destruct y as [|d y]; simpl.
    + apply negb_true_iff in Hc. now rewrite Hc.
    + destruct (Ascii.eqb c d); [now apply IH | discriminate].
Qed.

Lemma whiteSpace_avoids_b : Forall (fun p => avoids "b" p = true) whiteSpace.
Proof.
  repeat constructor.
Qed.

Lemma dropSpace_buy (y r : string) :
  dropSpace (y ++ "buy") = Some r -> exists y', r = y' ++ "buy".
Proof.
  intros H. apply dropAny_In in H as (p & Hp & Hdrop).
  apply (dropPrefix_before "b" p y "uy" r); [|exact Hdrop].
  exact (proj1 (Forall_forall _ _) whiteSpace_avoids_b p Hp).
Qed.

(** White space is stripped only in front of the final word. *)
Lemma trimStartUpTo_buy (n : nat) (y : string) :
  exists t, trimStartUpTo n (y ++ "buy") = t ++ "buy".
Proof.
  revert y. induction n as [|n IH]; intros y; simpl; [now exists y|].
  destruct (dropSpace (y ++ "buy")) as [r|] eqn:E; [|now exists y].
  apply dropSpace_buy in E as [y' ->]. apply IH.
Qed.

Lemma allSpace_buy (y : string) : allSpace (y ++ "buy") = false.
Proof.
  unfold allSpace, trimStart.
  destruct (trimStartUpTo_buy (String.length (y ++ "buy")) y) as [t ->].
  now destruct t.
Qed.

Lemma trimEnd_buy (s : string) : trimEnd (s ++ "buy") = s ++ "buy".
Proof.
  induction s as [|c s IH]; [reflexivity|].
  change (trimEnd (String c s ++ "buy"))
    with (if allSpace (String c s ++ "buy") then ""
          else String c (trimEnd (s ++ "buy"))).
  now rewrite allSpace_buy, IH.
Qed.

Lemma trim_buy_nonempty (s : string) : trim (s ++ "buy") <> "".
Proof.
  unfold trim, trimStart.
  destruct (trimStartUpTo_buy (String.length (s ++ "buy")) s) as [t ->].
  rewrite trimEnd_buy. now destruct t.
Qed.

Lemma dropAny_head (ps : list string) (c : ascii) (s : string) :
  Forall (fun p => p <> "") ps ->
  existsb (fun p => match p with
                    | String d _ => Ascii.eqb d c
                    | EmptyString => false
                    end) ps = false ->
  dropAny ps (String c s) = None.
Proof.
  induction ps as [|p ps IH]; intros Hne Hex; [reflexivity|].
  inversion Hne as [|? ? Hp Hps]; subst.
  simpl in Hex. apply orb_false_iff in Hex as [Hd Hrest].
  destruct p as [|d p]; [contradiction|].
  simpl. rewrite Hd. now apply IH.
Qed.

(** A string that does not open with a white-space byte has nothing to strip
    in front. *)
Lemma dropSpace_head (c : ascii) (s : string) :
  opensSpace c = false -> dropSpace (String c s) = None.
Proof.
  apply dropAny_head, whiteSpace_nonempty.
Qed.

Lemma trim_buy_id (c : ascii) (s : string) :
  opensSpace c = false ->
  trim (String c s ++ "buy") = String c s ++ "buy".
Proof.
  intros H. unfold trim, trimStart.
  change (String.length (String c s ++ "buy"))
    with (S (String.length (s ++ "buy"))).
  cbn [trimStartUpTo].
  change (String c s ++ "buy") with (String c (s ++ "buy")).
  rewrite (dropSpace_head c (s ++ "buy") H).
  apply (trimEnd_buy (String c s)).
Qed.

(* ================================================================== *)
(** ** The query builder and the extractor *)
(* ================================================================== *)

Section Properties.

Context {numbers : JsNumbers} {strings : JsStrings}.

(** What the in-place inference does to the record. *)
Lemma inferCategory_fields (a : Attributes) :
  brand (inferCategory a) = brand a /\
  colors (inferCategory a) = colors a /\
  patterns (inferCategory a) = patterns a /\
  texts (inferCategory a) = texts a /\
  category (inferCategory a) =
    (if negb (truthy (category a)) && tshirtRegexTest (ocrText a)
     then Some "t-shirt" else category a).
Proof.
  unfold inferCategory, ocrText.
  destruct (negb (truthy (category a)) &&
            tshirtRegexTest (toLowerCase (join " " (orEmpty (texts a)))));
    repeat split; reflexivity.
Qed.

Lemma recordAfter_inferCategory (a : Attributes) :
  recordAfter a = inferCategory a.
Proof.
  unfold recordAfter, buildQuery.
  destruct (negb (truthy (brand (inferCategory a))) &&
            negb (truthy (category (inferCategory a)))); reflexivity.
Qed.

(** The returned string, with the pushes written as one concatenation. *)
Lemma queryOf_unfold (a : Attributes) :
  let a' := inferCategory a in
  queryOf a =
    if negb (truthy (brand a')) && negb (truthy (category a'))
    then ""
    else trim ((spaced (brand a') ++ spaced (category a') ++
                spacedFirst (colors a') ++ spacedFirst (patterns a')) ++ "buy").
Proof.
  unfold queryOf, buildQuery. cbv zeta.
  destruct (negb (truthy (brand (inferCategory a))) &&
            negb (truthy (category (inferCategory a)))); [reflexivity|].
  cbn [fst]. rewrite join_snoc.
  rewrite !pushFirst_spaced, !pushIfTruthy_spaced. cbn [spacedAll].
  f_equal. string_assoc.
Qed.

Lemma truthy_inferred_category (a : Attributes) :
  truthy (category (inferCategory a)) =
  truthy (category a) || tshirtRegexTest (ocrText a).
Proof.
  destruct (inferCategory_fields a) as (_ & _ & _ & _ & ->).
  destruct (truthy (category a)) eqn:E; simpl; [exact E|].
  destruct (tshirtRegexTest (ocrText a)); [reflexivity | exact E].
Qed.

(* ------------------------------------------------------------------ *)
(** *** The inference of the query builder on records of the extractor *)

Lemma prefix_app (k post : string) : String.prefix k (k ++ post) = true.
Proof.
  induction k as [|c k IH]; simpl; [now destruct post|].
  destruct (ascii_dec c c); [exact IH | contradiction].
Qed.

Lemma prefix_split (k s : string) :
  String.prefix k s = true -> exists post, s = k ++ post.
Proof.
  revert s. induction k as [|c k IH]; intros s H.
  - now exists s.
  - destruct s as [|d s]; [discriminate|]. simpl in H.
    destruct (ascii_dec c d) as [<-|]; [|discriminate].
    destruct (IH s H) as [post ->]. now exists post.
Qed.

Lemma prefix_includes (k s : string) :
  String.prefix k s = true -> includes s k = true.
Proof.
  intros H. destruct s; cbn [includes]; now rewrite H.
Qed.

Lemma includes_cons (c : ascii) (s k : string) :
  includes s k = true -> includes (String c s) k = true.
Proof.
  intros H. cbn [includes]. rewrite H. apply orb_true_r.
Qed.

(** [includes] is the substring relation. *)
Lemma includes_split (s k : string) :
  includes s k = true <-> exists pre post, s = pre ++ k ++ post.
Proof.
  split.
  - induction s as [|c s IH]; cbn [includes]; rewrite orb_true_iff.
    + intros [H|H]; [|discriminate].
      destruct (prefix_split _ _ H) as [post ->]. now exists "", post.
    + intros [H|H].
      * destruct (prefix_split _ _ H) as [post ->]. now exists "", post.
      * destruct (IH H) as (pre & post & ->). now exists (String c pre), post.
  - intros (pre & post & ->). induction pre as [|c pre IH].
    + change ("" ++ k ++ post) with (k ++ post).
      apply prefix_includes, prefix_app.
    + cbn [append includes]. rewrite IH. apply orb_true_r.
Qed.

Lemma includes_trans (s w k : string) :
  includes s w = true -> includes w k = true -> includes s k = true.
Proof.
  rewrite !includes_split.
  intros (pre & post & ->) (pre' & post' & ->).
  exists (pre ++ pre'), (post' ++ post). string_assoc.
Qed.

Lemma matchLiteral_prefix (w s : string) (before : bool)
  (r : bool * string) :
  matchLiteral w s before = Some r -> String.prefix w s = true.
Proof.
  revert s before. induction w as [|c w IH]; intros s before.
  - now destruct s.
  - destruct s as [|d s]; simpl; [discriminate|].
    destruct (Ascii.eqb_spec c d) as [<-|]; [|discriminate].
    intros H. destruct (ascii_dec c c); [now apply IH in H | contradiction].
Qed.

(** A match of the regular expression is an occurrence of one of its four
    literals. *)
Lemma searchFrom_alternative (before : bool) (s : string) :
  searchFrom before s = true ->
  exists w, In w tshirtAlternatives /\ includes s w = true.
Proof.
  assert (Hhere : forall b t, matchHere b t = true ->
            exists w, In w tshirtAlternatives /\ includes t w = true).
  { intros b t H. unfold matchHere in H. apply andb_true_iff in H as [_ H].
    apply existsb_exists in H as (w & Hw & Hm).
    exists w. split; [exact Hw|].
    destruct (matchLiteral w t b) as [r|] eqn:E; [|discriminate].
    eapply prefix_includes, matchLiteral_prefix, E. }
  revert before. induction s as [|c s IH]; intros before; cbn [searchFrom];
    rewrite orb_true_iff; intros [H|H]; try discriminate;
    try (now apply (Hhere before)).
  destruct (IH _ H) as (w & Hw & Hinc). exists w. split; [exact Hw|].
  now apply includes_cons.
Qed.

(** Each literal of the expression contains "tee" or "shirt", two keywords
    of the first category group. *)
Lemma tshirtRegexTest_keyword (s : string) :
  tshirtRegexTest s = true ->
  includes s "tee" = true \/ includes s "shirt" = true.
Proof.
  intros H. apply searchFrom_alternative in H as (w & Hw & Hinc).
  simpl in Hw. destruct Hw as [<-|[<-|[<-|[<-|[]]]]].
  - right. now apply (includes_trans s "t-shirt").
  - right. now apply (includes_trans s "tshirt").
  - now left.
  - now right.
Qed.

Lemma prefix_before_space (k l rest : string) :
  noSpaceIn k = true ->
  String.prefix k (l ++ String " " rest) = true ->
  String.prefix k l = true.
Proof.
  revert l. induction k as [|a k IH]; intros l Hk H; [now destruct l|].
  simpl in Hk. apply andb_true_iff in Hk as [Ha Hk].
  destruct l as [|c l]; simpl in *.
  - destruct (ascii_dec a " ") as [->|]; [discriminate Ha | discriminate H].
  - destruct (ascii_dec a c); [now apply IH | discriminate].
Qed.

(** A keyword without a space that occurs in two texts joined by a space
    occurs in one of them. *)
Lemma includes_across_space (k l rest : string) :
  noSpaceIn k = true -> k <> "" ->
  includes (l ++ String " " rest) k = true ->
  includes l k = true \/ includes rest k = true.
Proof.
  intros Hk Hne. induction l as [|c l IH].
  - simpl. rewrite orb_true_iff. intros [H|H]; [|now right].
    apply (prefix_before_space k "" rest Hk) in H.
    destruct k; [contradiction | discriminate].
  - change (includes (String c l ++ String " " rest) k)
      with (String.prefix k (String c l ++ String " " rest)
            || includes (l ++ String " " rest) k).
    change (includes (String c l) k)
      with (String.prefix k (String c l) || includes l k).
    rewrite !orb_true_iff. intros [H|H].
    + left. left. now apply (prefix_before_space k (String c l) rest).
    + destruct (IH H) as [H'|H']; [left; now right | now right].
Qed.

Lemma includes_join (k : string) (ls : list string) :
  noSpaceIn k = true -> k <> "" ->
  includes (join " " ls) k = true ->
  exists l, In l ls /\ includes l k = true.
Proof.
  intros Hk Hne. unfold join. induction ls as [|l ls IH].
  - simpl. rewrite orb_false_r. intros H.
    destruct k; [contradiction | discriminate].
  - destruct ls as [|l' ls].
    + intros H. exists l. split; [now left | exact H].
    + change (String.concat " " (l :: l' :: ls))
        with (l ++ String " " (String.concat " " (l' :: ls))).
      intros H. apply (includes_across_space k _ _ Hk Hne) in H as [H|H].
      * exists l. split; [now left | exact H].
      * destruct (IH H) as (x & Hx & Hinc). exists x. split; [now right | exact Hinc].
Qed.

(** On a record of the extractor the regular expression can only match when
    the category is already "t-shirt": the OCR texts are part of the pool
    that category resolution scans for "tee" and "shirt". *)
Lemma attributesOf_regex_category (r : VisionResults) :
  tshirtRegexTest (ocrText (attributesOf r)) = true ->
  category (attributesOf r) = Some "t-shirt".
Proof.
  intros H. unfold ocrText in H. cbn [attributesOf texts orEmpty] in H.
  rewrite toLowerCase_join in H.
  assert (Hl : exists l,
             In l (map toLowerCase
                       (trimmedDescriptions (orEmpty (textAnnotations r)))) /\
             (includes l "tee" = true \/ includes l "shirt" = true)).
  { apply tshirtRegexTest_keyword in H as [H|H];
      apply includes_join in H; try reflexivity; try discriminate;
      destruct H as (l & Hl & Hinc); exists l; split; auto. }
  destruct Hl as (l & Hl & Hinc).
  cbn [attributesOf category].
  unfold pickCategoryFromPools, cats, pickCategoryWith.
  match goal with
  | |- (if ?c then _ else _) = _ => replace c with true; [reflexivity|]
  end.
  symmetry. apply existsb_exists. exists l. split.
  - unfold poolsOf. rewrite !map_app. apply in_or_app. right.
    apply in_or_app. right. apply in_or_app. now left.
  - simpl. destruct Hinc as [-> | ->]; rewrite ?orb_true_r; reflexivity.
Qed.

(** The builder leaves a record of the extractor as it is. *)
Lemma attributesOf_not_inferred (r : VisionResults) :
  inferCategory (attributesOf r) = attributesOf r.
Proof.
  unfold inferCategory. fold (ocrText (attributesOf r)).
  destruct (tshirtRegexTest (ocrText (attributesOf r))) eqn:E;
    [|now rewrite andb_false_r].
  now rewrite (attributesOf_regex_category r E).
Qed.

(* ------------------------------------------------------------------ *)
(** *** Words of the extractor *)

Lemma firstKeyIn_value (m : list (string * string)) (s b : string) :
  firstKeyIn m s = Some b -> In b (map snd m).
Proof.
  induction m as [|[key c] m IH]; simpl; [discriminate|].
  destruct (includes s key); [intros [= ->]; now left | right; now apply IH].
Qed.

Lemma pickBrandWith_value (m : list (string * string)) (pools : list string)
  (b : string) :
  pickBrandWith m pools = Some b -> In b (map snd m).
Proof.
  induction pools as [|s pools IH]; simpl; [discriminate|].
  destruct (firstKeyIn m s) as [c|] eqn:E; [|exact IH].
  intros [= <-]. exact (firstKeyIn_value _ _ _ E).
Qed.

Lemma pickCategoryWith_head (groups : list (list string))
  (pools : list string) (c : string) :
  pickCategoryWith groups pools = Some c ->
  exists group, In group groups /\ hd_error group = Some c.
Proof.
  induction groups as [|g groups IH]; simpl; [discriminate|].
  destruct (existsb _ pools).
  - intros H. exists g. split; [now left | exact H].
  - intros H. destruct (IH H) as (g' & Hin & Hhd). exists g'.
    split; [now right | exact Hhd].
Qed.

(** The extractor's brand and category are canonical names of the tables:
    never empty, never beginning with white space. *)
Lemma attributesOf_clean (r : VisionResults) :
  cleanWord (brand (attributesOf r)) = true /\
  cleanWord (category (attributesOf r)) = true.
Proof.
  split.
  - cbn [attributesOf brand].
    destruct (pickBrandFromPools _) as [b|] eqn:E; [|reflexivity].
    apply pickBrandWith_value in E.
    assert (Hall : Forall (fun b => cleanWord (normalizeBrand (Some b)) = true)
                          (map snd brandMap)) by (repeat constructor).
    exact (proj1 (Forall_forall _ _) Hall b E).
  - cbn [attributesOf category].
    destruct (pickCategoryFromPools _) as [c|] eqn:E; [|reflexivity].
    apply pickCategoryWith_head in E as (g & Hg & Hhd).
    assert (Hall : Forall (fun g => forall c, hd_error g = Some c ->
                                              cleanWord (Some c) = true) cats).
    { repeat constructor; intros c' [= <-]; reflexivity. }
    exact (proj1 (Forall_forall _ _) Hall g Hg c Hhd).
Qed.

Lemma cleanWord_truthy (o : option string) :
  cleanWord o = true -> (truthy o = false <-> o = None).
Proof.
  destruct o as [[|c s]|]; simpl; [discriminate | | tauto].
  intros _. split; discriminate.
Qed.

Lemma cleanWord_spaced (o : option string) :
  cleanWord o = true -> spacedAll (optWord o) = spaced o.
Proof.
  destruct o as [[|c s]|]; simpl; [discriminate | | reflexivity].
  intros _. string_assoc.
Qed.

Lemma firstWord_spaced (o : option (list string)) :
  spacedAll (firstWord o) = spacedFirst o.
Proof.
  destruct o as [[|x l]|]; reflexivity.
Qed.

(** The query of any record is empty exactly when the brand and the
    category are absent or empty and the regular expression does not match
    the OCR texts. *)
Lemma queryOf_empty (a : Attributes) :
  queryOf a = "" <->
  truthy (brand a) = false /\
  truthy (category a) = false /\
  tshirtRegexTest (ocrText a) = false.
Proof.
  pose proof (queryOf_unfold a) as Hq. cbv zeta in Hq.
  rewrite truthy_inferred_category in Hq.
  destruct (inferCategory_fields a) as (Hb & _).
  rewrite Hb in Hq. rewrite Hq.
  destruct (truthy (brand a)), (truthy (category a)),
           (tshirtRegexTest (ocrText a)); simpl;
    split; intros H; try tauto;
    try (destruct H as (? & ? & ?); discriminate);
    exfalso; eapply trim_buy_nonempty; exact H.
Qed.

(** For a record with clean brand and category that the inference leaves
    alone, the query is empty or is the specification's concatenation. *)
Lemma queryOf_specQuery (a : Attributes) :
  inferCategory a = a ->
  cleanWord (brand a) = true ->
  cleanWord (category a) = true ->
  queryOf a = "" \/ queryOf a = specQuery a.
Proof.
  intros Hinf Hb Hc.
  pose proof (queryOf_unfold a) as Hq. cbv zeta in Hq. rewrite Hinf in Hq.
  destruct (negb (truthy (brand a)) && negb (truthy (category a))) eqn:E;
    [now left | right].
  rewrite Hq. unfold specQuery.
  rewrite !app_assoc, join_snoc, !spacedAll_app.
  rewrite !cleanWord_spaced, !firstWord_spaced by assumption.
  rewrite <- !string_app_assoc.
  destruct (brand a) as [[|x b]|]; simpl in Hb, E |- *; try discriminate.
  - apply (trim_buy_id x). now apply negb_true_iff in Hb.
  - destruct (category a) as [[|x c]|]; simpl in Hc, E |- *;
      try discriminate.
    apply (trim_buy_id x). now apply negb_true_iff in Hc.
Qed.

(* ------------------------------------------------------------------ *)
(** *** The query builder *)

(** On a record of the extractor the query is empty exactly when there is
    neither brand nor category. *)
Lemma attributesOf_query_empty (r : VisionResults) :
  queryOf (attributesOf r) = "" <->
  brand (attributesOf r) = None /\ category (attributesOf r) = None.
Proof.
  destruct (attributesOf_clean r) as [Hb Hc].
  rewrite queryOf_empty, (cleanWord_truthy _ Hb), (cleanWord_truthy _ Hc).
  split; [tauto|]. intros [Hbn Hcn]. repeat split; try assumption.
  destruct (tshirtRegexTest (ocrText (attributesOf r))) eqn:E; [|reflexivity].
  apply attributesOf_regex_category in E. congruence.
Qed.

(** C1.  For every attribute record the extractor builds, and [buildQuery]
    is called on no other, the returned query is the empty string if and
    only if the brand and the category of the record are both absent; with
    a brand or a category the query is not empty. *)
Theorem buildQuery_empty_iff (r : VisionResults) :
  (queryOf (attributesOf r) = "" <->
   brand (attributesOf r) = None /\ category (attributesOf r) = None) /\
  (brand (attributesOf r) <> None \/ category (attributesOf r) <> None <->
   queryOf (attributesOf r) <> "").
Proof.
  pose proof (attributesOf_query_empty r) as Hiff.
  split; [exact Hiff|].
  split.
  - intros H Hq. apply Hiff in Hq as [Hbn Hcn]. tauto.
  - intros H.
    destruct (brand (attributesOf r)) as [b|]; [left; discriminate|].
    destruct (category (attributesOf r)) as [c|]; [right; discriminate|].
    elim H. apply Hiff. now split.
Qed.

(** C2.  [buildQuery] leaves the brand, the colors, the patterns and the
    texts of every record as they were, and a record built by the extractor,
    the only kind it is called on, is the same record after the call: each
    of its fields, the category too, has the value it had before. *)
Theorem buildQuery_frame (a : Attributes) (r : VisionResults) :
  (brand (recordAfter a) = brand a /\
   colors (recordAfter a) = colors a /\
   patterns (recordAfter a) = patterns a /\
   texts (recordAfter a) = texts a) /\
  recordAfter (attributesOf r) = attributesOf r /\
  category (recordAfter (attributesOf r)) = category (attributesOf r).
Proof.
  rewrite !recordAfter_inferCategory, attributesOf_not_inferred.
  destruct (inferCategory_fields a) as (? & ? & ? & ? & ?).
  repeat split; assumption.
Qed.

(** C6.  For every attribute record the extractor builds that yields a
    non-empty query, the query is the brand, the category, the first color,
    the first pattern and the token "buy", in this order, joined by single
    spaces, a field the record does not have contributing nothing; for
    [{brand: "Nike", category: "t-shirt", colors: ["black"]}] the query is
    "Nike t-shirt black buy". *)
Theorem buildQuery_concatenates (r : VisionResults) :
  queryOf (attributesOf r) <> "" ->
  queryOf (attributesOf r) = specQuery (attributesOf r) /\
  queryOf nikeBlackTee = "Nike t-shirt black buy".
Proof.
  intros Hne. split; [|reflexivity].
  destruct (attributesOf_clean r) as [Hb Hc].
  destruct (queryOf_specQuery (attributesOf r)
              (attributesOf_not_inferred r) Hb Hc) as [H | H];
    [contradiction | exact H].
Qed.

(* ------------------------------------------------------------------ *)
(** *** Brand resolution *)

(** The inner loop finds nothing exactly when no key of the table occurs. *)
Lemma firstKeyIn_None (m : list (string * string)) (s : string) :
  firstKeyIn m s = None <->
  forall k, In k (map fst m) -> includes s k = false.
Proof.
  induction m as [|[key c] m IH]; simpl.
  - split; [intros _ k [] | reflexivity].
  - destruct (includes s key) eqn:E.
    + split; [discriminate|]. intros H.
      rewrite (H key (or_introl eq_refl)) in E. discriminate.
    + rewrite IH. split.
      * intros H k [<-|Hin]; [exact E | now apply H].
      * intros H k Hin. apply H. now right.
Qed.

(** The inner loop returns the value of the first key, in table order, that
    occurs in the entry. *)
Lemma firstKeyIn_Some (m : list (string * string)) (s c : string) :
  firstKeyIn m s = Some c ->
  exists m1 key m2,
    m = (m1 ++ (key, c) :: m2)%list /\
    includes s key = true /\
    forall k, In k (map fst m1) -> includes s k = false.
Proof.
  induction m as [|[key c'] m IH]; simpl; [discriminate|].
  destruct (includes s key) eqn:E.
  - intros [= <-]. exists [], key, m. repeat split; [exact E | intros k []].
  - intros H. destruct (IH H) as (m1 & key' & m2 & -> & Hin & Hnot).
    exists ((key, c') :: m1), key', m2. repeat split; [exact Hin|].
    intros k [<-|Hk]; [exact E | now apply Hnot].
Qed.

Lemma firstKeyIn_found (m : list (string * string)) (s key : string) :
  In key (map fst m) -> includes s key = true ->
  exists c, firstKeyIn m s = Some c.
Proof.
  intros Hin Hinc. destruct (firstKeyIn m s) as [c|] eqn:E; [now exists c|].
  rewrite (proj1 (firstKeyIn_None m s) E key Hin) in Hinc. discriminate.
Qed.

(** The outer loop: the first pool entry in which some key occurs decides. *)
Lemma pickBrandWith_first_entry (m : list (string * string))
  (pools : list string) :
  (exists s key, In s pools /\ In key (map fst m) /\ includes s key = true) ->
  exists before s after c,
    pools = (before ++ s :: after)%list /\
    (forall s', In s' before -> firstKeyIn m s' = None) /\
    firstKeyIn m s = Some c /\
    pickBrandWith m pools = Some c.
Proof.
  induction pools as [|s pools IH]; intros (s0 & key & Hs & Hk & Hinc).
  - destruct Hs.
  - simpl. destruct (firstKeyIn m s) as [c|] eqn:E.
    + exists [], s, pools, c. repeat split; [intros s' [] | exact E].
    + destruct Hs as [<-|Hs].
      * destruct (firstKeyIn_found m s key Hk Hinc) as [c Hc]. congruence.
      * destruct IH as (before & s1 & after & c & -> & Hbefore & Hs1 & Hpick).
        { now exists s0, key. }
        exists (s :: before), s1, after, c. repeat split; try assumption.
        intros s' [<-|Hin]; [exact E | now apply Hbefore].
Qed.

(** The names of the brand table are not empty. *)
Lemma brandMap_truthy (c : string) :
  In c (map snd brandMap) -> normalizeBrand (Some c) = Some c.
Proof.
  intros Hin.
  assert (Hall : Forall (fun c => normalizeBrand (Some c) = Some c)
                        (map snd brandMap)) by (repeat constructor).
  exact (proj1 (Forall_forall _ _) Hall c Hin).
Qed.

(** The outer loop over a concatenation: the entries in front are tried
    first. *)
Lemma pickBrandWith_app (m : list (string * string)) (l1 l2 : list string) :
  pickBrandWith m (l1 ++ l2) =
  match pickBrandWith m l1 with
  | Some c => Some c
  | None => pickBrandWith m l2
  end.
Proof.
  induction l1 as [|s l1 IH]; simpl; [reflexivity|].
  destruct (firstKeyIn m s); [reflexivity | exact IH].
Qed.

(** The extractor's brand, pool by pool: a brand found among the logo words
    is taken before one found among the label words, and so on through the
    texts, the web entities and the objects. *)
Lemma attributesOf_brand_pool_order (r : VisionResults) :
  brand (attributesOf r) =
  match pickBrandFromPools (map toLowerCase (logoWordsOf r)) with
  | Some c => Some c
  | None =>
  match pickBrandFromPools (map toLowerCase (labelWordsOf r)) with
  | Some c => Some c
  | None =>
  match pickBrandFromPools (map toLowerCase (textsOf r)) with
  | Some c => Some c
  | None =>
  match pickBrandFromPools (map toLowerCase (webEntitiesOf r)) with
  | Some c => Some c
  | None => pickBrandFromPools (map toLowerCase (objectsOf r))
  end end end end.
Proof.
  change (brand (attributesOf r))
    with (normalizeBrand
            (pickBrandFromPools
               (map toLowerCase
                    (logoWordsOf r ++ labelWordsOf r ++ textsOf r ++
                     webEntitiesOf r ++ objectsOf r)))).
  unfold pickBrandFromPools.
  rewrite !map_app, !pickBrandWith_app.
  repeat match goal with
         | |- context [pickBrandWith brandMap ?l] =>
             let E := fresh "E" in
             destruct (pickBrandWith brandMap l) eqn:E;
             [apply brandMap_truthy; exact (pickBrandWith_value _ _ _ E)|]
         end.
  reflexivity.
Qed.

(** C4 (as amended).  When some entry of the pool contains a configured
    brand keyword, brand resolution returns a canonical brand name: the
    first entry, in pool order, that contains any keyword decides, and
    within that entry the first keyword in map order wins.  (Pool order
    comes before map order.)  The pool of the extractor is the logo words,
    the label words, the texts, the web entities and the objects, in this
    order, each lower-cased, so a keyword is found in whatever case the
    annotation has it; the brand of the extracted record is then the name
    returned. *)
Theorem pickBrand_first_entry_then_map_order (pools : list string) :
  (exists s key,
     In s pools /\ In key brandKeys /\ includes s key = true) ->
  exists before s after m1 key canonical m2,
    pools = (before ++ s :: after)%list /\
    brandMap = (m1 ++ (key, canonical) :: m2)%list /\
    (forall s' k, In s' before -> In k brandKeys -> includes s' k = false) /\
    (forall k, In k (map fst m1) -> includes s k = false) /\
    includes s key = true /\
    pickBrandFromPools pools = Some canonical /\
    (forall r : VisionResults,
        pools = map toLowerCase
                    (logoWordsOf r ++ labelWordsOf r ++ textsOf r ++
                     webEntitiesOf r ++ objectsOf r)%list ->
        brand (attributesOf r) = Some canonical).
Proof.
  intros Hsome.
  destruct (pickBrandWith_first_entry brandMap pools Hsome)
    as (before & s & after & c & Hsplit & Hbefore & Hs & Hpick).
  destruct (firstKeyIn_Some _ _ _ Hs) as (m1 & key & m2 & Hmap & Hinc & Hnot).
  exists before, s, after, m1, key, c, m2. repeat split.
  - exact Hsplit.
  - exact Hmap.
  - intros s' k Hs' Hk.
    exact (proj1 (firstKeyIn_None brandMap s') (Hbefore s' Hs') k Hk).
  - exact Hnot.
  - exact Hinc.
  - exact Hpick.
  - intros r Hr.
    change (brand (attributesOf r))
      with (normalizeBrand
              (pickBrandFromPools
                 (map toLowerCase
                      (logoWordsOf r ++ labelWordsOf r ++ textsOf r ++
                       webEntitiesOf r ++ objectsOf r)))).
    rewrite <- Hr. unfold pickBrandFromPools in Hpick |- *. rewrite Hpick.
    apply brandMap_truthy. exact (pickBrandWith_value _ _ _ Hpick).
Qed.

(* ------------------------------------------------------------------ *)
(** *** Colour resolution *)

Lemma existsb_eqb_In (x : string) (l : list string) :
  existsb (String.eqb x) l = true <-> In x l.
Proof.
  rewrite existsb_exists. split.
  - intros (y & Hin & Heq). apply String.eqb_eq in Heq. now subst.
  - intros Hin. exists x. split; [exact Hin | apply String.eqb_refl].
Qed.

(** [Set.prototype.add] keeps the members distinct. *)
Lemma setAdd_NoDup (found : list string) (x : string) :
  NoDup found -> NoDup (setAdd found x).
Proof.
  intros Hnd. unfold setAdd.
  destruct (existsb (String.eqb x) found) eqn:E; [exact Hnd|].
  apply NoDup_app; [exact Hnd | repeat constructor; intros [] |].
  intros a Ha [<-|[]].
  apply existsb_eqb_In in Ha. congruence.
Qed.

Lemma fold_setAdd_NoDup (xs acc : list string) :
  NoDup acc -> NoDup (fold_left setAdd xs acc).
Proof.
  revert acc. induction xs as [|x xs IH]; intros acc Hnd; simpl;
    [exact Hnd | apply IH, setAdd_NoDup, Hnd].
Qed.

Lemma setOf_NoDup (xs : list string) : NoDup (setOf xs).
Proof.
  apply fold_setAdd_NoDup. constructor.
Qed.

Lemma slice_In {A : Type} (n : nat) (l : list A) (x : A) :
  In x (firstn n l) -> In x l.
Proof.
  revert l. induction n as [|n IH]; intros [|y l]; simpl; try tauto.
  intros [->|H]; [now left | right; now apply IH].
Qed.

(** [slice(0, n)] of a duplicate-free array is duplicate-free. *)
Lemma slice_NoDup {A : Type} (n : nat) (l : list A) :
  NoDup l -> NoDup (firstn n l).
Proof.
  revert l. induction n as [|n IH]; intros [|y l] Hnd; simpl;
    try constructor.
  - inversion Hnd; subst. intros Hin. now apply slice_In in Hin.
  - inversion Hnd; subst. now apply IH.
Qed.

Lemma resolveColors_bounded (pools colorNames : list string) :
  List.length (resolveColors pools colorNames) <= 3 /\
  NoDup (resolveColors pools colorNames).
Proof.
  unfold resolveColors. split.
  - apply firstn_le_length.
  - apply slice_NoDup, setOf_NoDup.
Qed.

(** C7.  Whatever the annotation service returned, the colors of the
    attribute record are a list of at most 3 entries without duplicates. *)
Theorem attributesOf_colors_bounded (r : VisionResults) :
  exists cs,
    colors (attributesOf r) = Some cs /\
    List.length cs <= 3 /\
    NoDup cs.
Proof.
  eexists. split; [reflexivity|]. apply resolveColors_bounded.
Qed.

(* ------------------------------------------------------------------ *)
(** *** The search adapter *)

Lemma mapFrom_length {A B : Type} (f : A -> nat -> B) (k : nat) (l : list A) :
  List.length (mapFrom f k l) = List.length l.
Proof.
  revert k. induction l as [|x l IH]; intros k; simpl; [reflexivity|].
  now rewrite IH.
Qed.

Lemma mapFrom_nth_error {A B : Type} (f : A -> nat -> B) (k : nat)
  (l : list A) (i : nat) :
  nth_error (mapFrom f k l) i =
  option_map (fun x => f x (k + i)) (nth_error l i).
Proof.
  revert k i. induction l as [|x l IH]; intros k [|i]; simpl; try reflexivity.
  - now rewrite Nat.add_0_r.
  - rewrite IH. now rewrite Nat.add_succ_r.
Qed.

(** The element at index [i] of the match list is made from the service's
    result at index [i], for the first 12 indexes, and there is no other. *)
Lemma toMatches_nth_error (items : list ShoppingResult) (i : nat) :
  nth_error (toMatches items) i =
  if (i <? 12)%nat
  then option_map (fun it => toMatchItem it i) (nth_error items i)
  else None.
Proof.
  unfold toMatches. rewrite mapFrom_nth_error, nth_error_firstn.
  now destruct (i <? 12)%nat.
Qed.

Lemma toMatches_length (items : list ShoppingResult) :
  List.length (toMatches items) = Nat.min 12 (List.length items).
Proof.
  unfold toMatches. now rewrite mapFrom_length, length_firstn.
Qed.

Lemma truthy_Some (o : option string) :
  truthy o = true -> exists s, o = Some s /\ s <> "".
Proof.
  destruct o as [s|]; simpl; [|discriminate].
  intros H. exists s. split; [reflexivity|].
  intros ->. discriminate.
Qed.

(** A search that returns went through every stage of the adapter. *)
Lemma searchShopping_fulfilled (search : SearchService) (query : string)
  (tr tr' : Trace) (ms : list MatchItem) :
  searchShopping search query tr = (Fulfilled ms, tr') ->
  exists key resp js,
    SERPAPI_KEY search = Some key /\ key <> "" /\
    fetch search (searchUrl query key) = Fulfilled resp /\
    ok resp = true /\
    json resp = Fulfilled js /\
    ms = toMatches (orEmpty (shopping_results js)) /\
    tr' = (tr ++ [SearchCall (searchUrl query key)])%list.
Proof.
  unfold searchShopping.
  destruct (truthy (SERPAPI_KEY search)) eqn:Hkey; simpl; [|discriminate].
  destruct (truthy_Some _ Hkey) as (key & -> & Hne). simpl.
  unfold bind, issue, await, ret, throw.
  destruct (fetch search (searchUrl query key)) as [resp|e] eqn:Hfetch;
    [|discriminate].
  destruct (ok resp) eqn:Hok; simpl; [|discriminate].
  destruct (json resp) as [js|e] eqn:Hjson; [|discriminate].
  intros [= <- <-]. now exists key, resp, js.
Qed.

(** C8.  When the search service answers with a result list, the adapter
    returns one match per result for the first 12 results and nothing else:
    the match at index [i] is made from the result at index [i], so the
    order is kept and nothing is merged or dropped.  The price of a match is
    the service's [price] when that is not nullish, otherwise "$" followed by
    [extracted_price.toFixed(2)] when [extracted_price] is a number,
    otherwise [undefined]. *)
Theorem searchShopping_maps_first_12 (search : SearchService)
  (query key : string) (resp : FetchResponse) (js : SearchJson) (tr : Trace) :
  SERPAPI_KEY search = Some key -> key <> "" ->
  fetch search (searchUrl query key) = Fulfilled resp ->
  ok resp = true ->
  json resp = Fulfilled js ->
  let items := orEmpty (shopping_results js) in
  exists ms,
    searchShopping search query tr
      = (Fulfilled ms, (tr ++ [SearchCall (searchUrl query key)])%list) /\
    List.length ms = Nat.min 12 (List.length items) /\
    (forall i,
       nth_error ms i =
       if (i <? 12)%nat
       then option_map (fun it => toMatchItem it i) (nth_error items i)
       else None) /\
    (forall it i,
       title (toMatchItem it i) = res_title it /\
       url (toMatchItem it i) = link it /\
       image (toMatchItem it i) = thumbnail it /\
       price (toMatchItem it i) =
         if isNullish (res_price it)
         then match extracted_price it with
              | JNumber x => JString ("$" ++ toFixed2 x)
              | _ => JUndefined
              end
         else res_price it).
Proof.
  intros Hkey Hne Hfetch Hok Hjson items.
  exists (toMatches items). repeat split.
  - unfold searchShopping. rewrite Hkey. simpl.
    destruct (key =? "") eqn:E; [apply String.eqb_eq in E; contradiction|].
    simpl. unfold bind, issue, await, ret. rewrite Hfetch, Hok. simpl.
    now rewrite Hjson.
  - apply toMatches_length.
  - apply toMatches_nth_error.
Qed.

(** C10.  Every match the adapter returns has an id that is neither
    [undefined] nor [null]: the service's [product_id] when that is not
    nullish, else its [position] when that is not nullish, else the index of
    the result in the list. *)
Theorem searchShopping_ids_defined (search : SearchService) (query : string)
  (tr tr' : Trace) (ms : list MatchItem) :
  searchShopping search query tr = (Fulfilled ms, tr') ->
  exists key resp js,
    fetch search (searchUrl query key) = Fulfilled resp /\
    json resp = Fulfilled js /\
    forall i m,
      nth_error ms i = Some m ->
      isNullish (id m) = false /\
      exists it,
        nth_error (orEmpty (shopping_results js)) i = Some it /\
        id m = if negb (isNullish (product_id it)) then product_id it
               else if negb (isNullish (position it)) then position it
               else JNumber (numberOfIndex i).
Proof.
  intros H.
  destruct (searchShopping_fulfilled _ _ _ _ _ H)
    as (key & resp & js & _ & _ & Hfetch & _ & Hjson & -> & _).
  exists key, resp, js. split; [exact Hfetch|]. split; [exact Hjson|].
  intros i m Hm. rewrite toMatches_nth_error in Hm.
  destruct (i <? 12)%nat; [|discriminate].
  destruct (nth_error (orEmpty (shopping_results js)) i) as [it|];
    [|discriminate].
  injection Hm as <-. split.
  - simpl. unfold coalesce.
    destruct (product_id it), (position it); reflexivity.
  - exists it. split; [reflexivity|].
    simpl. unfold coalesce.
    destruct (product_id it), (position it); reflexivity.
Qed.

(* ------------------------------------------------------------------ *)
(** *** The orchestrator *)

Lemma noSearch_app (tr1 tr2 : Trace) :
  noSearch tr1 -> noSearch tr2 -> noSearch (tr1 ++ tr2)%list.
Proof.
  unfold noSearch. intros H1 H2. now rewrite existsb_app, H1, H2.
Qed.

Lemma bind_issue {A B : Type} (c : Call) (r : Settled A)
  (k : Settled A -> Route B) (tr : Trace) :
  bind (issue c r) k tr = k r (tr ++ [c])%list.
Proof.
  reflexivity.
Qed.

Lemma bind_ret {A B : Type} (a : A) (k : A -> Route B) (tr : Trace) :
  bind (ret a) k tr = k a tr.
Proof.
  reflexivity.
Qed.

Lemma silent_await_bind {A B : Type} (p : Settled A) (k : A -> Route B) :
  (forall a, silent (k a)) -> silent (bind (await p) k).
Proof.
  intros Hk tr. unfold bind. destruct p as [a|e]; simpl; [apply Hk | reflexivity].
Qed.

Lemma silent_ret {A : Type} (a : A) : silent (ret a).
Proof.
  intros tr. reflexivity.
Qed.

(** Awaiting the six promises and reducing their values calls nothing. *)
Ltac silent_chain :=
  repeat (apply silent_await_bind; intros); apply silent_ret.

Lemma extractAttributes_trace (client : VisionClient) (image : Buffer)
  (tr : Trace) :
  snd (extractAttributes client image tr) = (tr ++ visionCalls client image)%list.
Proof.
  unfold extractAttributes, visionCalls, guarded, guardedCall.
  rewrite !bind_issue.
  destruct (webDetection client), (objectLocalization client),
           (imageProperties client);
    rewrite ?bind_issue, ?bind_ret;
    (etransitivity; [apply silent_await_bind; intros; silent_chain|]);
    rewrite <- ?app_assoc; reflexivity.
Qed.

Lemma visionCalls_noSearch (client : VisionClient) (image : Buffer) :
  noSearch (visionCalls client image).
Proof.
  unfold visionCalls, guardedCall.
  destruct (webDetection client), (objectLocalization client),
           (imageProperties client); reflexivity.
Qed.

Lemma buildQuery_pair (a : Attributes) :
  buildQuery a = (queryOf a, recordAfter a).
Proof.
  unfold queryOf, recordAfter. now destruct (buildQuery a).
Qed.

(** The responses of the [try] block: the bad-request response, the
    placeholder, or a match list with the debug payload when requested. *)
Lemma handle_fulfilled_shape (useSerpapi : bool) (client : VisionClient)
  (search : SearchService) (req : Request) (tr tr' : Trace) (resp : Response) :
  handle useSerpapi client search req tr = (Fulfilled resp, tr') ->
  resp = errorResponse "Provide a file or a TikTok URL" 400 \/
  resp = placeholderResponse \/
  exists ms info,
    resp = matchesResponse ms (debugRequested req) info /\
    dbg_count info = List.length ms.
Proof.
  unfold handle, bind, await, ret, throw.
  destruct (formData req) as [form|e]; [|discriminate].
  destruct (entryTruthy (form_file form)); simpl.
  - unfold readFile, ret, throw.
    destruct (form_file form) as [[s|f]|]; try discriminate.
    destruct (extractAttributes client (arrayBuffer f) tr) as [[a|e] tr1];
      [|discriminate].
    destruct (buildQuery a) as [q a'].
    unfold projectIdOf, bind, issue, ret.
    destruct (q =? "").
    + intros [= <- _]. right. right. eexists _, _. split; reflexivity.
    + destruct useSerpapi; simpl.
      * destruct (searchShopping search q _) as [[ms|e] tr2]; [|discriminate].
        intros [= <- _]. right. right. eexists _, _. split; reflexivity.
      * intros [= <- _]. right. right. eexists _, _. split; reflexivity.
  - destruct (entryTruthy (form_tiktokUrl form)); simpl.
    + intros [= <- _]. right. now left.
    + intros [= <- _]. now left.
Qed.

(** C5 (as amended).  For a request with [debug=1], the response carries the
    debug payload exactly when it is one of the responses built after the
    query: status 200 with a match list and no note (empty query, dry run,
    search results); the payload then counts the matches of the response.
    The 400 response, the placeholder response for a link and the 500
    response carry no payload. *)
Theorem POST_debug_payload (useSerpapi : bool) (client : VisionClient)
  (search : SearchService) (req : Request) :
  debugParam req = Some "1" ->
  let resp := fst (POSTWith useSerpapi client search req) in
  (debug (body resp) <> None <-> status resp = 200 /\ note (body resp) = None) /\
  (forall info,
     debug (body resp) = Some info ->
     exists ms, matches (body resp) = Some ms /\ dbg_count info = List.length ms).
Proof.
  intros Hdbg resp. subst resp. unfold POSTWith, tryCatch.
  destruct (handle useSerpapi client search req []) as [[resp|e] tr'] eqn:H;
    cbn [fst].
  - apply handle_fulfilled_shape in H.
    assert (Hreq : debugRequested req = true).
    { unfold debugRequested. now rewrite Hdbg. }
    rewrite Hreq in H.
    destruct H as [->|[->|(ms & info & -> & Hcount)]]; simpl.
    + split; [|discriminate]. split; [congruence | intros [? _]; discriminate].
    + split; [|discriminate]. split; [congruence | intros [_ ?]; discriminate].
    + split.
      * split; [now split | discriminate].
      * intros info' [= <-]. now exists ms.
  - simpl. split; [|discriminate].
    split; [congruence | intros [? _]; discriminate].
Qed.

(** C3.  With the toggle [USE_SERPAPI] off, a request whose upload yields a
    non-empty query (the form parses, it carries a file, the annotation calls
    succeed and [buildQuery] returns a non-empty string) gets status 200 with
    an empty match list, and the trace of the request has no call to the
    search service.  The route ships with the toggle off. *)
Theorem POST_dry_run (useSerpapi : bool) (client : VisionClient)
  (search : SearchService) (req : Request) (form : FormData) (f : File)
  (a : Attributes) (tr1 : Trace) :
  useSerpapi = false ->
  formData req = Fulfilled form ->
  form_file form = Some (EntryFile f) ->
  extractAttributes client (arrayBuffer f) [] = (Fulfilled a, tr1) ->
  queryOf a <> "" ->
  let result := POSTWith useSerpapi client search req in
  status (fst result) = 200 /\
  matches (body (fst result)) = Some [] /\
  noSearch (snd result) /\
  POST client search req = result.
Proof.
  intros -> Hform Hfile Hextract Hquery result. subst result.
  assert (Htr1 : noSearch tr1).
  { pose proof (extractAttributes_trace client (arrayBuffer f) []) as Htr.
    rewrite Hextract in Htr. simpl in Htr. subst tr1.
    apply visionCalls_noSearch. }
  unfold POST, USE_SERPAPI, POSTWith, tryCatch, handle, bind, await, ret.
  rewrite Hform, Hfile. simpl.
  rewrite Hextract, buildQuery_pair.
  unfold projectIdOf, bind, issue, ret.
  destruct (queryOf a =? "") eqn:E; [apply String.eqb_eq in E; contradiction|].
  simpl. repeat split.
  now apply noSearch_app.
Qed.

(** C9 (as amended).  A request whose form data can be read and holds
    neither a file nor a non-empty [tiktokUrl] gets status 400 and an [error]
    field; one whose form data can be read and holds a non-empty [tiktokUrl]
    and no file gets status 200, an empty match list and a [note] field; one
    whose body cannot be read as form data gets status 500 and an [error]
    field, that of the exception or "Processing failed".  None of the three
    makes an external call. *)
Theorem POST_input_gates (useSerpapi : bool) (client : VisionClient)
  (search : SearchService) (req : Request) :
  let result := POSTWith useSerpapi client search req in
  (forall form : FormData,
      formData req = Fulfilled form ->
      entryTruthy (form_file form) = false ->
      entryTruthy (form_tiktokUrl form) = false ->
      status (fst result) = 400 /\
      error (body (fst result)) = Some "Provide a file or a TikTok URL" /\
      matches (body (fst result)) = None /\
      snd result = []) /\
  (forall form : FormData,
      formData req = Fulfilled form ->
      entryTruthy (form_file form) = false ->
      entryTruthy (form_tiktokUrl form) = true ->
      status (fst result) = 200 /\
      matches (body (fst result)) = Some [] /\
      note (body (fst result)) =
        Some "Upload a screenshot of the outfit moment for best results." /\
      error (body (fst result)) = None /\
      snd result = []) /\
  (forall message : option string,
      formData req = Rejected message ->
      status (fst result) = 500 /\
      error (body (fst result)) = Some (orElse message "Processing failed") /\
      matches (body (fst result)) = None /\
      snd result = []).
Proof.
  intros result. subst result.
  unfold POSTWith, tryCatch, handle, bind, await, ret, throw.
  split; [|split].
  - intros form Hform Hfile Hlink. rewrite Hform, Hfile, Hlink.
    repeat split.
  - intros form Hform Hfile Hlink. rewrite Hform, Hfile, Hlink.
    repeat split.
  - intros message Hform. rewrite Hform. repeat split.
Qed.

(* ------------------------------------------------------------------ *)
(** *** Category resolution *)

Lemma pickCategoryWith_Some (groups : list (list string))
  (pools : list string) (c : string) :
  pickCategoryWith groups pools = Some c ->
  exists before group after,
    groups = (before ++ group :: after)%list /\
    hd_error group = Some c /\
    groupIn pools group = true /\
    forall g, In g before -> groupIn pools g = false.
Proof.
  induction groups as [|g groups IH]; simpl; [discriminate|].
  fold (groupIn pools g). destruct (groupIn pools g) eqn:E.
  - intros H. exists [], g, groups. repeat split; try assumption.
    intros g' [].
  - intros H. destruct (IH H) as (before & group & after & -> & Hhd & Hin & Hnot).
    exists (g :: before), group, after. repeat split; try assumption.
    intros g' [<-|Hg']; [exact E | now apply Hnot].
Qed.

Lemma pickCategoryWith_None (groups : list (list string))
  (pools : list string) :
  pickCategoryWith groups pools = None ->
  Forall (fun g => g <> []) groups ->
  forall g, In g groups -> groupIn pools g = false.
Proof.
  induction groups as [|g groups IH]; simpl; [intros _ _ g []|].
  fold (groupIn pools g). destruct (groupIn pools g) eqn:E.
  - intros H Hne. inversion Hne as [|? ? Hg _]; subst.
    destruct g; [contradiction | discriminate].
  - intros H Hne g' [<-|Hg']; [exact E|].
    inversion Hne; subst. now apply IH.
Qed.

Lemma cats_nonempty : Forall (fun g : list string => g <> []) cats.
Proof.
  repeat constructor; discriminate.
Qed.

(** X1.  Category resolution goes by table order, not by pool order: the
    result is the canonical (first) word of the first group of the table one
    of whose keywords occurs in some pool entry; there is no category exactly
    when no keyword of any group occurs in the pool. *)
Theorem pickCategory_table_order (pools : list string) :
  match pickCategoryFromPools pools with
  | Some c =>
      exists before group after,
        cats = (before ++ group :: after)%list /\
        hd_error group = Some c /\
        groupIn pools group = true /\
        forall g, In g before -> groupIn pools g = false
  | None => forall g, In g cats -> groupIn pools g = false
  end.
Proof.
  destruct (pickCategoryFromPools pools) as [c|] eqn:E.
  - now apply pickCategoryWith_Some.
  - apply (pickCategoryWith_None cats pools E cats_nonempty).
Qed.

(* ------------------------------------------------------------------ *)
(** *** Word collection: colours and patterns *)

Lemma setAdd_In (found : list string) (x w : string) :
  In w (setAdd found x) <-> In w found \/ w = x.
Proof.
  unfold setAdd. destruct (existsb (String.eqb x) found) eqn:E.
  - apply existsb_eqb_In in E. split; [now left|].
    intros [H| ->]; assumption.
  - rewrite in_app_iff. simpl. intuition congruence.
Qed.

(** The inner loop of [collectWords] over the word list, for one label. *)
Lemma collect_label_In (l : string) (words found : list string) (w : string) :
  In w (fold_left (fun found w' => if includes l w' then setAdd found w'
                                   else found) words found)
  <-> In w found \/ (In w words /\ includes l w = true).
Proof.
  revert found. induction words as [|x words IH]; intros found; simpl.
  - tauto.
  - rewrite IH. destruct (includes l x) eqn:E.
    + rewrite setAdd_In. split.
      * intros [[H| ->]|[H1 H2]]; auto.
      * intros [H|[[<-|H1] H2]]; auto.
    + split.
      * intros [H|[H1 H2]]; auto.
      * intros [H|[[<-|H1] H2]]; auto. congruence.
Qed.

Lemma collect_label_NoDup (l : string) (words found : list string) :
  NoDup found ->
  NoDup (fold_left (fun found w' => if includes l w' then setAdd found w'
                                    else found) words found).
Proof.
  revert found. induction words as [|x words IH]; intros found Hnd; simpl;
    [exact Hnd|].
  apply IH. destruct (includes l x); [now apply setAdd_NoDup | exact Hnd].
Qed.

Lemma collect_fold_In (words labels found : list string) (w : string) :
  In w (fold_left
          (fun found l =>
             fold_left (fun found w' => if includes l w' then setAdd found w'
                                        else found) words found)
          labels found)
  <-> In w found \/ (In w words /\ keywordIn labels w = true).
Proof.
  revert found. induction labels as [|l labels IH]; intros found; simpl.
  - split; [now left | intros [H|[_ H]]; [exact H | discriminate]].
  - rewrite IH, collect_label_In, orb_true_iff. tauto.
Qed.

Lemma collect_fold_NoDup (words labels found : list string) :
  NoDup found ->
  NoDup (fold_left
           (fun found l =>
              fold_left (fun found w' => if includes l w' then setAdd found w'
                                         else found) words found)
           labels found).
Proof.
  revert found. induction labels as [|l labels IH]; intros found Hnd; simpl;
    [exact Hnd|].
  now apply IH, collect_label_NoDup.
Qed.

Lemma collectWords_NoDup (words labels : list string) :
  NoDup (collectWords words labels).
Proof.
  apply collect_fold_NoDup. constructor.
Qed.

Lemma collectWords_In (words labels : list string) (w : string) :
  In w (collectWords words labels) <->
  In w words /\ keywordIn labels w = true.
Proof.
  unfold collectWords. rewrite collect_fold_In. simpl. tauto.
Qed.

(** X2.  The word collector shared by [pickColors] and [pickPatterns]
    returns exactly the words of the list that occur in some label, each
    once. *)
Theorem collectWords_spec (words labels : list string) :
  NoDup (collectWords words labels) /\
  forall w,
    In w (collectWords words labels) <->
    In w words /\ keywordIn labels w = true.
Proof.
  split; [apply collectWords_NoDup | apply collectWords_In].
Qed.

Lemma collectWords_incl (words labels : list string) :
  incl (collectWords words labels) words.
Proof.
  intros w Hw. now apply collectWords_In in Hw.
Qed.

(* ------------------------------------------------------------------ *)
(** *** Nearest palette colour *)

Lemma nearer_sqDist (r g b : Z) (acc : option string * option Z)
  (name : string) (p : Z * Z * Z) :
  nearer r g b acc (name, p) =
  match snd acc with
  | None => (Some name, Some (sqDist r g b p))
  | Some bestDist =>
      if (sqDist r g b p <? bestDist)%Z
      then (Some name, Some (sqDist r g b p)) else acc
  end.
Proof.
  destruct p as [[pr pg] pb]. reflexivity.
Qed.

(** The loop of [approxColorName] from a current best entry: it ends on an
    entry that is strictly nearer than every entry before it and at least as
    near as every entry after it. *)
Lemma nearest_fold (r g b : Z) (rest : list (string * (Z * Z * Z))) :
  forall (l1 l2 : list (string * (Z * Z * Z))) (name : string)
         (p : Z * Z * Z),
    (forall e, In e l1 -> (sqDist r g b p < sqDist r g b (snd e))%Z) ->
    (forall e, In e l2 -> (sqDist r g b p <= sqDist r g b (snd e))%Z) ->
    exists l1' name' p' l2',
      (l1 ++ (name, p) :: l2 ++ rest = l1' ++ (name', p') :: l2')%list /\
      fold_left (nearer r g b) rest (Some name, Some (sqDist r g b p))
        = (Some name', Some (sqDist r g b p')) /\
      (forall e, In e l1' -> (sqDist r g b p' < sqDist r g b (snd e))%Z) /\
      (forall e, In e l2' -> (sqDist r g b p' <= sqDist r g b (snd e))%Z).
Proof.
  induction rest as [|[n q] rest IH]; intros l1 l2 name p Hlt Hle.
  - exists l1, name, p, l2. rewrite app_nil_r. repeat split; assumption.
  - cbn [fold_left]. rewrite nearer_sqDist. cbn [snd].
    destruct (sqDist r g b q <? sqDist r g b p)%Z eqn:E.
    + apply Z.ltb_lt in E.
      destruct (IH (l1 ++ (name, p) :: l2)%list [] n q)
        as (l1' & name' & p' & l2' & Heq & Hfold & Hlt' & Hle').
      * intros e He. apply in_app_or in He as [He|[<-|He]].
        -- specialize (Hlt e He). lia.
        -- exact E.
        -- specialize (Hle e He). lia.
      * intros e [].
      * exists l1', name', p', l2'. repeat split; try assumption.
        rewrite <- Heq. simpl. rewrite <- app_assoc. reflexivity.
    + apply Z.ltb_ge in E.
      destruct (IH l1 (l2 ++ [(n, q)])%list name p Hlt)
        as (l1' & name' & p' & l2' & Heq & Hfold & Hlt' & Hle').
      * intros e He. apply in_app_or in He as [He|[<-|[]]].
        -- now apply Hle.
        -- exact E.
      * exists l1', name', p', l2'. repeat split; try assumption.
        rewrite <- Heq. rewrite <- app_assoc. reflexivity.
Qed.

Lemma approxColorName_split (r g b : Z) :
  exists l1 name p l2,
    rgbPalette = (l1 ++ (name, p) :: l2)%list /\
    approxColorName r g b = Some name /\
    (forall e, In e l1 -> (sqDist r g b p < sqDist r g b (snd e))%Z) /\
    (forall e, In e l2 -> (sqDist r g b p <= sqDist r g b (snd e))%Z).
Proof.
  unfold approxColorName.
  destruct rgbPalette as [|[n0 p0] rest] eqn:Epal; [discriminate|].
  cbn [fold_left]. rewrite nearer_sqDist. cbn [snd].
  destruct (nearest_fold r g b rest [] [] n0 p0)
    as (l1 & name & p & l2 & Heq & Hfold & Hlt & Hle);
    try (intros e []).
  exists l1, name, p, l2. rewrite Hfold. repeat split; assumption.
Qed.


(** X4.  Every colour of the palette is named by its own entry: no entry is
    shadowed by an earlier one at the same point. *)
Theorem approxColorName_palette :
  Forall (fun e : string * (Z * Z * Z) =>
            let '(name, (r, g, b)) := e in
            approxColorName r g b = Some name)
         rgbPalette.
Proof.
  repeat constructor.
Qed.

Lemma approxColorName_name (r g b : Z) (n : string) :
  approxColorName r g b = Some n -> In n (map fst rgbPalette).
Proof.
  destruct (approxColorName_split r g b) as (l1 & name & p & l2 & -> & -> & _).
  intros [= <-]. rewrite map_app. apply in_or_app. right. now left.
Qed.

(* ------------------------------------------------------------------ *)
(** *** The record of the extractor *)

Lemma fold_setAdd_extends (xs acc : list string) :
  exists rest,
    fold_left setAdd xs acc = (acc ++ rest)%list /\
    incl rest xs /\
    forall x, In x rest -> ~ In x acc.
Proof.
  revert acc. induction xs as [|x xs IH]; intros acc; simpl.
  - exists []. rewrite app_nil_r. repeat split; [intros y [] | intros y []].
  - destruct (IH (setAdd acc x)) as (rest & Heq & Hincl & Hnew).
    unfold setAdd in *. destruct (existsb (String.eqb x) acc) eqn:E.
    + exists rest. repeat split; [exact Heq | | exact Hnew].
      intros y Hy. right. now apply Hincl.
    + exists (x :: rest). repeat split.
      * rewrite Heq, <- app_assoc. reflexivity.
      * intros y [<-|Hy]; [now left | right; now apply Hincl].
      * intros y [<-|Hy] Hin.
        -- apply existsb_eqb_In in Hin. congruence.
        -- apply (Hnew y Hy). apply in_or_app. now left.
Qed.

Lemma fold_setAdd_NoDup_id (xs acc : list string) :
  NoDup (acc ++ xs) -> fold_left setAdd xs acc = (acc ++ xs)%list.
Proof.
  revert acc. induction xs as [|x xs IH]; intros acc Hnd; simpl.
  - now rewrite app_nil_r.
  - assert (Hx : existsb (String.eqb x) acc = false).
    { destruct (existsb (String.eqb x) acc) eqn:E; [|reflexivity].
      apply existsb_eqb_In in E. apply NoDup_remove_2 in Hnd.
      exfalso. apply Hnd. apply in_or_app. now left. }
    unfold setAdd. rewrite Hx. rewrite IH.
    + now rewrite <- app_assoc.
    + now rewrite <- app_assoc.
Qed.

Lemma setOf_NoDup_id (xs : list string) : NoDup xs -> setOf xs = xs.
Proof.
  intros H. unfold setOf. now rewrite fold_setAdd_NoDup_id.
Qed.

(** X5.  Colour words found in the annotation texts come first, in the order
    found; names of dominant colours only fill the places that are left.  In
    particular three or more colour words in the texts are the whole
    result. *)
Theorem resolveColors_text_first (pools colorNames : list string) :
  exists rest,
    resolveColors pools colorNames = firstn 3 (pickColors pools ++ rest) /\
    incl rest colorNames /\
    (forall x, In x rest -> ~ In x (pickColors pools)) /\
    (3 <= List.length (pickColors pools) ->
     resolveColors pools colorNames = firstn 3 (pickColors pools)).
Proof.
  unfold resolveColors, setOf. rewrite fold_left_app.
  fold (setOf (pickColors pools)).
  rewrite (setOf_NoDup_id (pickColors pools)
             (collectWords_NoDup colorPalette pools)).
  destruct (fold_setAdd_extends colorNames (pickColors pools))
    as (rest & -> & Hincl & Hnew).
  exists rest. repeat split; try assumption.
  intros Hlen. rewrite firstn_app.
  replace (3 - List.length (pickColors pools)) with 0 by lia.
  simpl. now rewrite app_nil_r.
Qed.

Lemma filterTruthy_In (l : list (option string)) (t : string) :
  In t (filterTruthy l) <-> In (Some t) l /\ t <> "".
Proof.
  induction l as [|[s|] l IH]; simpl.
  - tauto.
  - destruct (String.eqb_spec s "") as [->|Hne].
    + rewrite IH. split; [tauto|]. intros [[[= <-]|H] Hne]; [contradiction|tauto].
    + simpl. rewrite IH. split.
      * intros [<-|[H1 H2]]; auto.
      * intros [[[= <-]|H] Hne']; auto.
  - rewrite IH. split; [tauto|]. intros [[H|H] Hne]; [discriminate|tauto].
Qed.

Lemma colorNamesOf_incl (domColors : list ColorInfo) :
  incl (colorNamesOf domColors) (map fst rgbPalette).
Proof.
  intros n Hn. unfold colorNamesOf in Hn.
  apply filterTruthy_In in Hn as [Hn _].
  apply in_map_iff in Hn as (c & Hc & _).
  now apply approxColorName_name in Hc.
Qed.

Lemma setOf_incl (xs : list string) : incl (setOf xs) xs.
Proof.
  unfold setOf. destruct (fold_setAdd_extends xs []) as (rest & -> & H & _).
  exact H.
Qed.

Lemma slice_incl {A : Type} (n : nat) (l : list A) : incl (firstn n l) l.
Proof.
  intros x. apply slice_In.
Qed.

Lemma incl_rgb_names : incl (map fst rgbPalette) colorPalette.
Proof.
  intros n Hn. cbn in Hn. unfold colorPalette.
  repeat (destruct Hn as [<-|Hn]; [cbn; tauto|]). destruct Hn.
Qed.

(** X6.  Apart from the raw texts, every word of the extractor's record is
    drawn from a fixed vocabulary: the brand is a canonical name of the brand
    table, the category the first word of a category group, every color a
    word of the colour list, and the patterns are distinct words of the
    pattern list (so at most 8). *)
Theorem attributesOf_vocabulary (r : VisionResults) :
  exists cs ps,
    colors (attributesOf r) = Some cs /\
    patterns (attributesOf r) = Some ps /\
    incl cs colorPalette /\
    NoDup ps /\ incl ps pats /\ List.length ps <= 8 /\
    (forall b, brand (attributesOf r) = Some b -> In b (map snd brandMap)) /\
    (forall c, category (attributesOf r) = Some c ->
               exists group, In group cats /\ hd_error group = Some c).
Proof.
  exists (resolveColors
            (poolsOf (logoWordsOf r) (labelWordsOf r) (textsOf r)
                     (webEntitiesOf r) (objectsOf r))
            (colorNamesOf (orEmpty (dominantColors r)))),
         (pickPatterns
            (map toLowerCase
               (map (fun l => orElse (description l) "")
                    (orEmpty (labelAnnotations r))
                ++ trimmedDescriptions (orEmpty (webEntities r))))).
  split; [reflexivity|]. split; [reflexivity|].
  split; [|split; [|split; [|split; [|split]]]].
  - intros c Hc. apply slice_incl, setOf_incl in Hc.
    apply in_app_or in Hc as [Hc|Hc].
    + now apply collectWords_incl in Hc.
    + apply colorNamesOf_incl in Hc. revert c Hc.
      apply incl_rgb_names.
  - apply collectWords_NoDup.
  - apply collectWords_incl.
  - exact (NoDup_incl_length (collectWords_NoDup pats _)
             (collectWords_incl pats _)).
  - cbn [attributesOf brand]. intros b Hb.
    destruct (pickBrandFromPools _) as [b'|] eqn:E; [|discriminate].
    apply pickBrandWith_value in E. unfold normalizeBrand in Hb.
    destruct (negb (truthy (Some b'))); [discriminate|].
    now injection Hb as <-.
  - cbn [attributesOf category]. intros c Hc.
    now apply pickCategoryWith_head in Hc.
Qed.

Lemma dropPrefix_app (p x y r : string) :
  dropPrefix p x = Some r -> dropPrefix p (x ++ y) = Some (r ++ y).
Proof.
  revert x. induction p as [|c p IH]; intros x; simpl.
  - now intros [= ->].
  - destruct x as [|d x]; [discriminate|]. simpl.
    destruct (Ascii.eqb c d); [apply IH | discriminate].
Qed.

Lemma dropAny_app (ps : list string) (x y r : string) :
  dropAny ps x = Some r -> dropAny ps (x ++ y) <> None.
Proof.
  induction ps as [|p ps IH]; simpl; [discriminate|].
  destruct (dropPrefix p x) as [r'|] eqn:E.
  - intros _. now rewrite (dropPrefix_app _ _ y _ E).
  - intros H. destruct (dropPrefix p (x ++ y)); [discriminate | now apply IH].
Qed.

(** [trimEnd] cuts a string, it does not change what stays. *)
Lemma trimEnd_prefix (s : string) : exists rest, s = trimEnd s ++ rest.
Proof.
  induction s as [|c s [rest IH]]; [now exists ""|].
  cbn [trimEnd]. destruct (allSpace (String c s)).
  - now exists (String c s).
  - exists rest. simpl. now rewrite <- IH.
Qed.

(** [trim] leaves no white space in front. *)
Lemma trim_no_leading_space (s : string) : dropSpace (trim s) = None.
Proof.
  unfold trim. pose proof (trimStart_done s) as Hstart.
  destruct (trimEnd_prefix (trimStart s)) as [rest Hrest].
  destruct (dropSpace (trimEnd (trimStart s))) as [r|] eqn:E; [|reflexivity].
  apply (dropAny_app _ _ rest) in E.
  unfold dropSpace in Hstart. rewrite <- Hrest in E. contradiction.
Qed.

(** X7.  The raw texts of the record are the trimmed descriptions of the
    text annotations, those left out that are empty after trimming: no text
    of the record is empty and none begins with white space. *)
Theorem attributesOf_texts_trimmed (r : VisionResults) :
  exists ts,
    texts (attributesOf r) = Some ts /\
    (forall t, In t ts <->
       exists a d,
         In a (orEmpty (textAnnotations r)) /\ description a = Some d /\
         t = trim d /\ t <> "") /\
    (forall t, In t ts -> t <> "" /\ dropSpace t = None).
Proof.
  eexists. split; [reflexivity|].
  assert (Hin : forall t,
             In t (trimmedDescriptions (orEmpty (textAnnotations r))) <->
             exists a d,
               In a (orEmpty (textAnnotations r)) /\ description a = Some d /\
               t = trim d /\ t <> "").
  { intros t. unfold trimmedDescriptions.
    rewrite filterTruthy_In, in_map_iff. split.
    - intros [(a & Ha & Hin) Hne].
      destruct (description a) as [d|] eqn:Ed; [|discriminate].
      injection Ha as <-. now exists a, d.
    - intros (a & d & Hin & Hd & -> & Hne). split; [|exact Hne].
      exists a. now rewrite Hd. }
  split; [exact Hin|].
  intros t Ht. apply Hin in Ht as (a & d & _ & _ & -> & Hne).
  split; [exact Hne | apply trim_no_leading_space].
Qed.

(* ------------------------------------------------------------------ *)
(** *** The query builder on any record *)

(** X8.  The regular expression of the builder matches only a text that
    contains "tee" or "shirt"; a match needs word boundaries, so a text may
    contain either and not match. *)
Theorem tshirtRegexTest_needs_keyword (s : string) :
  (tshirtRegexTest s = true ->
   includes s "tee" = true \/ includes s "shirt" = true) /\
  includes "canteen" "tee" = true /\
  tshirtRegexTest "canteen" = false.
Proof.
  split; [apply tshirtRegexTest_keyword|]. split; reflexivity.
Qed.

(** X9.  On any record, made by the extractor or not, the call writes
    "t-shirt" to the category exactly when the category is absent or empty
    and the regular expression matches the lower-cased, space-joined texts,
    and writes nothing else; the query is empty exactly when brand and
    category are absent or empty and the expression does not match. *)
Theorem buildQuery_inference (a : Attributes) :
  category (recordAfter a) =
    (if negb (truthy (category a)) && tshirtRegexTest (ocrText a)
     then Some "t-shirt" else category a) /\
  (recordAfter a = a \/ recordAfter a = setCategory a "t-shirt") /\
  (queryOf a = "" <->
   truthy (brand a) = false /\
   truthy (category a) = false /\
   tshirtRegexTest (ocrText a) = false).
Proof.
  split; [|split].
  - rewrite recordAfter_inferCategory.
    now destruct (inferCategory_fields a) as (_ & _ & _ & _ & ?).
  - rewrite recordAfter_inferCategory. unfold inferCategory.
    destruct (negb (truthy (category a)) && _); [now right | now left].
  - apply queryOf_empty.
Qed.

(** X10.  Brand resolution finds no brand exactly when no keyword of the
    table occurs in any entry of the pool. *)
Theorem pickBrand_none_iff (pools : list string) :
  pickBrandFromPools pools = None <->
  forall s k, In s pools -> In k brandKeys -> includes s k = false.
Proof.
  unfold pickBrandFromPools, brandKeys. split.
  - intros Hnone s k Hs Hk.
    destruct (includes s k) eqn:E; [|reflexivity].
    destruct (pickBrandWith_first_entry brandMap pools)
      as (_ & _ & _ & c & _ & _ & _ & Hpick); [|congruence].
    now exists s, k.
  - intros Hall. induction pools as [|s pools IH]; [reflexivity|].
    cbn [pickBrandWith].
    assert (Hs : firstKeyIn brandMap s = None).
    { apply firstKeyIn_None. intros k Hk. apply Hall; [now left | exact Hk]. }
    rewrite Hs. apply IH. intros s' k Hs' Hk. apply Hall; [now right | exact Hk].
Qed.
(* ------------------------------------------------------------------ *)
(** *** Failures of the annotation and search services *)

(** All six promises are made before the first is awaited: the calls are
    in the trace whether or not one of them rejects, and the function
    returns exactly when none does. *)
Lemma extractAttributes_settles (client : VisionClient) (image : Buffer)
  (tr : Trace) :
  (anyRejected client image = false ->
   extractAttributes client image tr
   = (Fulfilled (attributesOf (resultsOf client image)),
      (tr ++ visionCalls client image)%list)) /\
  (anyRejected client image = true ->
   exists e,
     extractAttributes client image tr
     = (Rejected e, (tr ++ visionCalls client image)%list)).
Proof.
  pose proof (extractAttributes_trace client image tr) as Htr.
  destruct (extractAttributes client image tr) as [res tr'] eqn:Hrun.
  cbn [snd] in Htr. subst tr'.
  assert (Hfst : fst (extractAttributes client image tr) = res)
    by now rewrite Hrun.
  clear Hrun.
  unfold extractAttributes, anyRejected, resultsOf, guarded, guardedRejected,
    guardedValue, settledValue, isRejected, bind, issue, await, ret, throw
    in *.
  destruct (logoDetection client image), (labelDetection client image),
           (textDetection client image);
    destruct (webDetection client) as [web|]; try destruct (web image);
    destruct (objectLocalization client) as [obj|]; try destruct (obj image);
    destruct (imageProperties client) as [props|];
    try destruct (props image);
    cbn in Hfst |- *; subst res;
    (split; intros Hany; [try discriminate Hany; reflexivity
                         | try discriminate Hany; eexists; reflexivity]).
Qed.

(** X11.  [extractAttributes] issues every annotation call that the client
    has, whatever the calls answer; it returns the record reduced from the
    six answers when none of them rejects, and throws when one does: there
    is no partial result. *)
Theorem extractAttributes_all_or_nothing (client : VisionClient)
  (image : Buffer) (tr : Trace) :
  snd (extractAttributes client image tr)
    = (tr ++ visionCalls client image)%list /\
  (anyRejected client image = false ->
   fst (extractAttributes client image tr)
     = Fulfilled (attributesOf (resultsOf client image))) /\
  (anyRejected client image = true ->
   exists e, fst (extractAttributes client image tr) = Rejected e).
Proof.
  destruct (extractAttributes_settles client image tr) as [Hok Hfail].
  split; [apply extractAttributes_trace|]. split.
  - intros H. now rewrite (Hok H).
  - intros H. destruct (Hfail H) as [e He]. exists e. now rewrite He.
Qed.

(** X12.  Without a key in the environment (none, or an empty one) the
    adapter throws "Missing SERPAPI_KEY" before it contacts the service. *)
Theorem searchShopping_missing_key (search : SearchService) (query : string)
  (tr : Trace) :
  truthy (SERPAPI_KEY search) = false ->
  searchShopping search query tr = (Rejected (Some "Missing SERPAPI_KEY"), tr).
Proof.
  intros H. unfold searchShopping. now rewrite H.
Qed.

(** X13.  When the service answers with a status that is not a success, the
    adapter throws "SerpAPI failed: " followed by the status, after its one
    call; the body of the answer is not read. *)
Theorem searchShopping_failed_status (search : SearchService)
  (query key : string) (resp : FetchResponse) (tr : Trace) :
  SERPAPI_KEY search = Some key -> key <> "" ->
  fetch search (searchUrl query key) = Fulfilled resp ->
  ok resp = false ->
  searchShopping search query tr
  = (Rejected (Some ("SerpAPI failed: " ++ decimal (res_status resp))),
     (tr ++ [SearchCall (searchUrl query key)])%list).
Proof.
  intros Hkey Hne Hfetch Hok. unfold searchShopping. rewrite Hkey. simpl.
  destruct (key =? "") eqn:E; [apply String.eqb_eq in E; contradiction|].
  simpl. unfold bind, issue, await, ret, throw. rewrite Hfetch, Hok.
  reflexivity.
Qed.

(** The route up to the query, for an upload whose annotation calls all
    resolve. *)
Lemma handle_after_query (useSerpapi : bool) (client : VisionClient)
  (search : SearchService) (req : Request) (form : FormData) (f : File)
  (a : Attributes) (tr1 : Trace) :
  formData req = Fulfilled form ->
  form_file form = Some (EntryFile f) ->
  extractAttributes client (arrayBuffer f) [] = (Fulfilled a, tr1) ->
  handle useSerpapi client search req []
  = let projectId := match getProjectId client with
                     | Fulfilled pid => Some pid
                     | Rejected _ => None
                     end in
    let tr2 := (tr1 ++ [ProjectIdCall])%list in
    if queryOf a =? ""
    then (Fulfilled (matchesResponse [] (debugRequested req)
                       {| dbg_projectId := projectId;
                          dbg_query := queryOf a;
                          dbg_attributes := recordAfter a;
                          dbg_count := 0;
                          dbg_dry := None |}), tr2)
    else if negb useSerpapi
    then (Fulfilled (matchesResponse [] (debugRequested req)
                       {| dbg_projectId := projectId;
                          dbg_query := queryOf a;
                          dbg_attributes := recordAfter a;
                          dbg_count := 0;
                          dbg_dry := Some true |}), tr2)
    else match searchShopping search (queryOf a) tr2 with
         | (Fulfilled ms, tr3) =>
             (Fulfilled (matchesResponse ms (debugRequested req)
                           {| dbg_projectId := projectId;
                              dbg_query := queryOf a;
                              dbg_attributes := recordAfter a;
                              dbg_count := List.length ms;
                              dbg_dry := None |}), tr3)
         | (Rejected e, tr3) => (Rejected e, tr3)
         end.
Proof.
  intros Hform Hfile Hextract.
  unfold handle, bind, await, ret.
  rewrite Hform, Hfile. simpl.
  rewrite Hextract, buildQuery_pair.
  unfold projectIdOf, bind, issue, ret.
  destruct (queryOf a =? ""); [reflexivity|].
  destruct useSerpapi; simpl; [|reflexivity].
  destruct (searchShopping search (queryOf a) _) as [[ms|e] tr3];
    reflexivity.
Qed.

(** X14.  With the search switched on and no key in the environment, an
    upload that yields a non-empty query gets status 500 with the error
    "Missing SERPAPI_KEY" and no match list; the search service is not
    called. *)
Theorem POSTWith_missing_key (client : VisionClient) (search : SearchService)
  (req : Request) (form : FormData) (f : File) (a : Attributes)
  (tr1 : Trace) :
  formData req = Fulfilled form ->
  form_file form = Some (EntryFile f) ->
  extractAttributes client (arrayBuffer f) [] = (Fulfilled a, tr1) ->
  queryOf a <> "" ->
  truthy (SERPAPI_KEY search) = false ->
  let result := POSTWith true client search req in
  status (fst result) = 500 /\
  error (body (fst result)) = Some "Missing SERPAPI_KEY" /\
  matches (body (fst result)) = None /\
  debug (body (fst result)) = None /\
  noSearch (snd result).
Proof.
  intros Hform Hfile Hextract Hquery Hkey result. subst result.
  assert (Htr1 : noSearch tr1).
  { pose proof (extractAttributes_trace client (arrayBuffer f) []) as Htr.
    rewrite Hextract in Htr. simpl in Htr. subst tr1.
    apply visionCalls_noSearch. }
  unfold POSTWith, tryCatch.
  rewrite (handle_after_query true client search req form f a tr1
             Hform Hfile Hextract).
  cbv zeta.
  destruct (queryOf a =? "") eqn:E; [apply String.eqb_eq in E; contradiction|].
  cbn [negb]. unfold searchShopping. rewrite Hkey. simpl.
  repeat split. now apply noSearch_app.
Qed.

(** X15.  When an annotation call rejects, the upload gets status 500 with
    an [error] field and no match list; the route has made its annotation
    calls and nothing else: it asks for no project id and does not
    search. *)
Theorem POSTWith_annotation_failure (useSerpapi : bool)
  (client : VisionClient) (search : SearchService) (req : Request)
  (form : FormData) (f : File) :
  formData req = Fulfilled form ->
  form_file form = Some (EntryFile f) ->
  anyRejected client (arrayBuffer f) = true ->
  let result := POSTWith useSerpapi client search req in
  status (fst result) = 500 /\
  (exists message, error (body (fst result)) = Some message) /\
  matches (body (fst result)) = None /\
  snd result = visionCalls client (arrayBuffer f).
Proof.
  intros Hform Hfile Hrej result. subst result.
  destruct (proj2 (extractAttributes_settles client (arrayBuffer f) []) Hrej)
    as [e He].
  unfold POSTWith, tryCatch, handle, bind, await, ret.
  rewrite Hform, Hfile. simpl. rewrite He. simpl.
  repeat split. now eexists.
Qed.

(** X16.  An upload in which the annotations name neither a brand nor a
    category gets status 200 with an empty match list, whatever the toggle:
    the search service is not called, and the debug payload, when asked for,
    shows the empty query and the count 0. *)
Theorem POSTWith_no_query (useSerpapi : bool) (client : VisionClient)
  (search : SearchService) (req : Request) (form : FormData) (f : File) :
  formData req = Fulfilled form ->
  form_file form = Some (EntryFile f) ->
  anyRejected client (arrayBuffer f) = false ->
  brand (attributesOf (resultsOf client (arrayBuffer f))) = None ->
  category (attributesOf (resultsOf client (arrayBuffer f))) = None ->
  let result := POSTWith useSerpapi client search req in
  status (fst result) = 200 /\
  matches (body (fst result)) = Some [] /\
  snd result = (visionCalls client (arrayBuffer f) ++ [ProjectIdCall])%list /\
  (debugRequested req = true ->
   exists info,
     debug (body (fst result)) = Some info /\
     dbg_query info = "" /\ dbg_count info = 0 /\ dbg_dry info = None).
Proof.
  intros Hform Hfile Hok Hbrand Hcat result. subst result.
  pose proof (proj1 (extractAttributes_settles client (arrayBuffer f) []) Hok)
    as Hextract.
  assert (Hq : queryOf (attributesOf (resultsOf client (arrayBuffer f))) = "")
    by (apply attributesOf_query_empty; now split).
  unfold POSTWith, tryCatch.
  rewrite (handle_after_query useSerpapi client search req form f _ _
             Hform Hfile Hextract).
  cbv zeta. rewrite Hq. cbn [String.eqb].
  repeat split. intros ->. eexists. repeat split.
Qed.

(** X17.  Every response of the route has status 200, 400 or 500; it has a
    match list exactly when the status is 200 and an [error] field exactly
    when it is not. *)
Theorem POSTWith_status_codes (useSerpapi : bool) (client : VisionClient)
  (search : SearchService) (req : Request) :
  let resp := fst (POSTWith useSerpapi client search req) in
  (status resp = 200 \/ status resp = 400 \/ status resp = 500) /\
  (status resp = 200 <-> matches (body resp) <> None) /\
  (status resp <> 200 <-> error (body resp) <> None).
Proof.
  intros resp. subst resp. unfold POSTWith, tryCatch.
  destruct (handle useSerpapi client search req []) as [[resp|e] tr'] eqn:Hrun;
    cbn [fst].
  - apply handle_fulfilled_shape in Hrun.
    destruct Hrun as [->|[->|(ms & info & -> & _)]]; simpl;
      (split; [tauto|]); split; split; intros H;
      try discriminate; try congruence; try reflexivity.
  - simpl. split; [tauto|]. split; split; intros H;
      try discriminate; try congruence.
Qed.

(** X18.  The project id is read for the debug payload only: a client whose
    [getProjectId] answers otherwise, or rejects, gets the same status,
    match list, note and error, after the same calls. *)
Theorem POSTWith_project_id_only_debug (useSerpapi : bool)
  (client : VisionClient) (search : SearchService) (req : Request)
  (p : Settled string) :
  let result := POSTWith useSerpapi client search req in
  let result' := POSTWith useSerpapi (withProjectId client p) search req in
  status (fst result') = status (fst result) /\
  matches (body (fst result')) = matches (body (fst result)) /\
  note (body (fst result')) = note (body (fst result)) /\
  error (body (fst result')) = error (body (fst result)) /\
  snd result' = snd result.
Proof.
  intros result result'. subst result result'.
  unfold POSTWith, tryCatch, handle, bind, await, ret, throw.
  destruct (formData req) as [form|e]; [|repeat split].
  destruct (entryTruthy (form_file form)); simpl.
  - unfold readFile, ret, throw.
    destruct (form_file form) as [[s|f]|]; try (repeat split; fail).
    change (extractAttributes (withProjectId client p) (arrayBuffer f) [])
      with (extractAttributes client (arrayBuffer f) []).
    destruct (extractAttributes client (arrayBuffer f) []) as [[a|e] tr1];
      [|repeat split].
    destruct (buildQuery a) as [q a'].
    unfold projectIdOf, bind, issue, ret.
    destruct (q =? ""); [repeat split|].
    destruct useSerpapi; simpl; [|repeat split].
    destruct (searchShopping search q _) as [[ms|e] tr2]; repeat split.
  - destruct (entryTruthy (form_tiktokUrl form)); repeat split.
Qed.

(** X19.  With the search switched on, an upload that yields a non-empty
    query and whose search succeeds gets status 200 with the matches of the
    adapter: at most 12, made from the results of the service; the calls of
    the request are the annotation calls, the project id and one search for
    the query built. *)
Theorem POSTWith_search_results (client : VisionClient)
  (search : SearchService) (req : Request) (form : FormData) (f : File)
  (a : Attributes) (tr1 : Trace) (key : string) (resp : FetchResponse)
  (js : SearchJson) :
  formData req = Fulfilled form ->
  form_file form = Some (EntryFile f) ->
  extractAttributes client (arrayBuffer f) [] = (Fulfilled a, tr1) ->
  queryOf a <> "" ->
  SERPAPI_KEY search = Some key -> key <> "" ->
  fetch search (searchUrl (queryOf a) key) = Fulfilled resp ->
  ok resp = true ->
  json resp = Fulfilled js ->
  let result := POSTWith true client search req in
  status (fst result) = 200 /\
  matches (body (fst result))
    = Some (toMatches (orEmpty (shopping_results js))) /\
  List.length (toMatches (orEmpty (shopping_results js))) <= 12 /\
  snd result = (visionCalls client (arrayBuffer f)
                ++ [ProjectIdCall; SearchCall (searchUrl (queryOf a) key)])%list.
Proof.
  intros Hform Hfile Hextract Hquery Hkey Hne Hfetch Hok Hjson result.
  subst result.
  assert (Htr1 : tr1 = visionCalls client (arrayBuffer f)).
  { pose proof (extractAttributes_trace client (arrayBuffer f) []) as Htr.
    rewrite Hextract in Htr. exact Htr. }
  unfold POSTWith, tryCatch.
  rewrite (handle_after_query true client search req form f a tr1
             Hform Hfile Hextract).
  cbv zeta.
  destruct (queryOf a =? "") eqn:E; [apply String.eqb_eq in E; contradiction|].
  cbn [negb]. unfold searchShopping. rewrite Hkey. simpl.
  destruct (key =? "") eqn:E'; [apply String.eqb_eq in E'; contradiction|].
  simpl. unfold bind, issue, await, ret. rewrite Hfetch, Hok. simpl.
  rewrite Hjson. simpl. subst tr1. repeat split.
  - rewrite toMatches_length. apply Nat.le_min_l.
  - now rewrite <- app_assoc.
Qed.

End Properties.

(* ================================================================== *)
(** ** The theorems on the sample data *)
(* ================================================================== *)

(** C6 on the record extracted from the sample annotations. *)
Lemma buildQuery_concatenates_witness :
  queryOf (attributesOf nikeTeeResults) <> "" /\
  queryOf (attributesOf nikeTeeResults) = "Nike t-shirt black buy".
Proof.
  assert (H : queryOf (attributesOf nikeTeeResults) <> "")
    by (vm_compute; discriminate).
  split; [exact H|].
  destruct (buildQuery_concatenates nikeTeeResults H) as [-> _].
  reflexivity.
Defined.

(** C4 on the image with an Adidas logo and the label "NIKE Air": the logo
    comes first in the pool, so the brand is Adidas. *)
Lemma pickBrand_first_entry_then_map_order_witness :
  (exists s key,
     In s (map toLowerCase adidasLogoNikeLabel) /\ In key brandKeys /\
     includes s key = true) /\
  pickBrandFromPools (map toLowerCase adidasLogoNikeLabel) = Some "Adidas" /\
  brand (attributesOf adidasLogoNikeLabelResults) = Some "Adidas".
Proof.
  assert (H : exists s key,
             In s (map toLowerCase adidasLogoNikeLabel) /\
             In key brandKeys /\ includes s key = true).
  { exists "nike air", "nike". repeat split.
    - right. left. reflexivity.
    - left. reflexivity. }
  split; [exact H|].
  destruct (pickBrand_first_entry_then_map_order
              (map toLowerCase adidasLogoNikeLabel) H)
    as (before & s & after & m1 & key & canonical & m2 &
        _ & _ & _ & _ & _ & Hpick & Hbrand).
  assert (Hc : canonical = "Adidas").
  { assert (Hrun : pickBrandFromPools (map toLowerCase adidasLogoNikeLabel)
                   = Some "Adidas") by reflexivity.
    rewrite Hpick in Hrun. now injection Hrun. }
  subst canonical. split; [exact Hpick|].
  apply Hbrand. reflexivity.
Defined.

(** C4, the claim as stated fails: with the logo "Adidas" and the label
    "NIKE Air" in the pool, the first keyword in map order that occurs in the
    pool is "nike", yet brand resolution returns "Adidas". *)
Lemma pickBrand_map_order_does_not_win :
  specBrand (map toLowerCase adidasLogoNikeLabel) = Some "Nike" /\
  pickBrandFromPools (map toLowerCase adidasLogoNikeLabel) = Some "Adidas" /\
  pickBrandFromPools (map toLowerCase adidasLogoNikeLabel)
    <> specBrand (map toLowerCase adidasLogoNikeLabel).
Proof.
  repeat split; try reflexivity. vm_compute. discriminate.
Qed.

(* ------------------------------------------------------------------ *)
(** *** The route on the sample data *)

(** C5 on the sample upload with the search switched on. *)
Lemma POST_debug_payload_witness :
  debugParam uploadRequest = Some "1" /\
  debug (body (fst (POSTWith true nikeTeeClient shopService uploadRequest)))
    <> None.
Proof.
  split; [reflexivity|].
  apply (proj1 (POST_debug_payload true nikeTeeClient shopService
                  uploadRequest eq_refl)).
  split; reflexivity.
Defined.

(** C5, the claim as stated fails: a request with [debug=1] and neither form
    field gets the 400 response, which has no debug payload. *)
Lemma POST_debug_missing_on_bad_request :
  debugParam emptyRequest = Some "1" /\
  status (fst (POST nikeTeeClient shopService emptyRequest)) = 400 /\
  debug (body (fst (POST nikeTeeClient shopService emptyRequest))) = None.
Proof.
  repeat split.
Qed.

(** C3 on the sample upload: the annotations of the sample client yield the
    query "Nike t-shirt black buy". *)
Lemma POST_dry_run_witness :
  queryOf (attributesOf
             {| logoAnnotations := Some [mkAnnotation (Some "Nike")];
                labelAnnotations := Some [mkAnnotation (Some "T-shirt");
                                          mkAnnotation (Some "Black")];
                textAnnotations := Some [mkAnnotation (Some " JUST DO IT ")];
                webEntities := None;
                localizedObjectAnnotations :=
                  Some [mkLocalizedObject (Some "Top")];
                dominantColors :=
                  Some [mkColorInfo
                          (Some (mkRgb (Some 12%Z) (Some 10%Z) (Some 14%Z)))] |})
    = "Nike t-shirt black buy" /\
  status (fst (POST nikeTeeClient shopService uploadRequest)) = 200 /\
  matches (body (fst (POST nikeTeeClient shopService uploadRequest))) = Some [] /\
  noSearch (snd (POST nikeTeeClient shopService uploadRequest)).
Proof.
  split; [reflexivity|].
  destruct (POST_dry_run false nikeTeeClient shopService uploadRequest
              {| form_file := Some (EntryFile screenshot);
                 form_tiktokUrl := None |}
              screenshot _ _ eq_refl eq_refl eq_refl eq_refl)
    as (Hstatus & Hmatches & Hsearch & _).
  - vm_compute. discriminate.
  - repeat split; assumption.
Defined.

(** C9 on the empty form, on the form with a link only and on the body
    that is no form. *)
Lemma POST_input_gates_witness :
  (status (fst (POST nikeTeeClient shopService emptyRequest)) = 400 /\
   error (body (fst (POST nikeTeeClient shopService emptyRequest)))
     = Some "Provide a file or a TikTok URL") /\
  (status (fst (POST nikeTeeClient shopService linkRequest)) = 200 /\
   matches (body (fst (POST nikeTeeClient shopService linkRequest))) = Some [] /\
   note (body (fst (POST nikeTeeClient shopService linkRequest)))
     = Some "Upload a screenshot of the outfit moment for best results.") /\
  (status (fst (POST nikeTeeClient shopService unreadableRequest)) = 500 /\
   error (body (fst (POST nikeTeeClient shopService unreadableRequest)))
     = Some "Failed to parse body as FormData.").
Proof.
  split; [|split].
  - destruct (proj1 (POST_input_gates false nikeTeeClient shopService
                       emptyRequest)
                    {| form_file := None; form_tiktokUrl := None |}
                    eq_refl eq_refl eq_refl)
      as (Hstatus & Herror & _).
    split; assumption.
  - destruct (proj1 (proj2 (POST_input_gates false nikeTeeClient shopService
                              linkRequest))
                    {| form_file := None;
                       form_tiktokUrl :=
                         Some (EntryString
                                 "https://www.tiktok.com/@look/video/1") |}
                    eq_refl eq_refl eq_refl)
      as (Hstatus & Hmatches & Hnote & _).
    repeat split; assumption.
  - destruct (proj2 (proj2 (POST_input_gates false nikeTeeClient shopService
                              unreadableRequest))
                    (Some "Failed to parse body as FormData.") eq_refl)
      as (Hstatus & Herror & _).
    split; assumption.
Defined.

(** C9, the claim as stated fails: a request whose body is no form carries
    neither field and gets status 500, not 400; a request whose form has an
    empty [tiktokUrl] as its only field gets status 400 and no note, not
    status 200. *)
Lemma POST_input_gates_unread_or_blank :
  carriesFile unreadableRequest = false /\
  carriesTiktokUrl unreadableRequest = false /\
  status (fst (POST nikeTeeClient shopService unreadableRequest)) = 500 /\
  carriesFile blankLinkRequest = false /\
  carriesTiktokUrl blankLinkRequest = true /\
  status (fst (POST nikeTeeClient shopService blankLinkRequest)) = 400 /\
  matches (body (fst (POST nikeTeeClient shopService blankLinkRequest))) = None /\
  note (body (fst (POST nikeTeeClient shopService blankLinkRequest))) = None.
Proof.
  repeat split.
Qed.

(** C8 on the three sample results. *)
Lemma searchShopping_maps_first_12_witness :
  exists ms,
    searchShopping shopService "Nike t-shirt black buy" []
      = (Fulfilled ms,
         [SearchCall (searchUrl "Nike t-shirt black buy" "test-key")]) /\
    List.length ms = 3 /\
    option_map price (nth_error ms 0) = Some (JString "$25.00") /\
    option_map price (nth_error ms 1) = Some (JString "$29.99") /\
    option_map price (nth_error ms 2) = Some JUndefined.
Proof.
  destruct (searchShopping_maps_first_12 shopService "Nike t-shirt black buy"
              "test-key" _ _ [] eq_refl ltac:(discriminate)
              eq_refl eq_refl eq_refl)
    as (ms & Hrun & Hlen & Hnth & _).
  exists ms. split; [exact Hrun|]. split; [exact Hlen|].
  rewrite !Hnth. repeat split.
Defined.

(** C10 on the three sample results. *)
Lemma searchShopping_ids_defined_witness :
  exists ms,
    searchShopping shopService "Nike t-shirt black buy" []
      = (Fulfilled ms,
         [SearchCall (searchUrl "Nike t-shirt black buy" "test-key")]) /\
    forall i m, nth_error ms i = Some m -> isNullish (id m) = false.
Proof.
  exists (toMatches shoppingResults). split; [reflexivity|].
  intros i m Hm.
  destruct (searchShopping_ids_defined shopService "Nike t-shirt black buy"
              [] _ _ eq_refl)
    as (key & resp & js & _ & _ & Hids).
  exact (proj1 (Hids i m Hm)).
Defined.

(* ------------------------------------------------------------------ *)
(** *** Failures on the sample data *)

(** X12 on the environment without a key. *)
Lemma searchShopping_missing_key_witness :
  truthy (SERPAPI_KEY keylessService) = false /\
  searchShopping keylessService "Nike t-shirt black buy" []
  = (Rejected (Some "Missing SERPAPI_KEY"), []).
Proof.
  split; [reflexivity|].
  apply (searchShopping_missing_key keylessService). reflexivity.
Defined.

(** X13 on the service that answers 429. *)
Lemma searchShopping_failed_status_witness :
  ok {| ok := false; res_status := 429;
        json := Rejected (Some "Unexpected token") |} = false /\
  searchShopping overQuotaService "Nike t-shirt black buy" []
  = (Rejected (Some "SerpAPI failed: 429"),
     [SearchCall (searchUrl "Nike t-shirt black buy" "test-key")]).
Proof.
  split; [reflexivity|].
  apply (searchShopping_failed_status overQuotaService
           "Nike t-shirt black buy" "test-key"
           {| ok := false; res_status := 429;
              json := Rejected (Some "Unexpected token") |} []);
    [reflexivity | discriminate | reflexivity | reflexivity].
Defined.

(** X14 on the sample upload. *)
Lemma POSTWith_missing_key_witness :
  truthy (SERPAPI_KEY keylessService) = false /\
  status (fst (POSTWith true nikeTeeClient keylessService uploadRequest)) = 500 /\
  error (body (fst (POSTWith true nikeTeeClient keylessService uploadRequest)))
    = Some "Missing SERPAPI_KEY".
Proof.
  split; [reflexivity|].
  destruct (POSTWith_missing_key nikeTeeClient keylessService uploadRequest
              {| form_file := Some (EntryFile screenshot);
                 form_tiktokUrl := None |}
              screenshot _ _ eq_refl eq_refl eq_refl)
    as (Hstatus & Herror & _).
  - vm_compute. discriminate.
  - reflexivity.
  - split; assumption.
Defined.

(** X15 on the client whose label detection is denied. *)
Lemma POSTWith_annotation_failure_witness :
  anyRejected failingClient (arrayBuffer screenshot) = true /\
  status (fst (POST failingClient shopService uploadRequest)) = 500 /\
  error (body (fst (POST failingClient shopService uploadRequest)))
    = Some "7 PERMISSION_DENIED" /\
  List.length (snd (POST failingClient shopService uploadRequest)) = 5.
Proof.
  split; [reflexivity|].
  destruct (POSTWith_annotation_failure false failingClient shopService
              uploadRequest
              {| form_file := Some (EntryFile screenshot);
                 form_tiktokUrl := None |}
              screenshot eq_refl eq_refl eq_refl)
    as (Hstatus & _ & _ & Htrace).
  split; [exact Hstatus|]. split; [reflexivity|].
  unfold POST, USE_SERPAPI. now rewrite Htrace.
Defined.

(** X16 on the client that sees nothing. *)
Lemma POSTWith_no_query_witness :
  brand (attributesOf (resultsOf blindClient (arrayBuffer screenshot))) = None /\
  category (attributesOf (resultsOf blindClient (arrayBuffer screenshot)))
    = None /\
  status (fst (POSTWith true blindClient shopService uploadRequest)) = 200 /\
  matches (body (fst (POSTWith true blindClient shopService uploadRequest)))
    = Some [] /\
  snd (POSTWith true blindClient shopService uploadRequest)
    = [VisionCall "logoDetection" "PNG.";
       VisionCall "labelDetection" "PNG.";
       VisionCall "textDetection" "PNG.";
       ProjectIdCall].
Proof.
  split; [reflexivity|]. split; [reflexivity|].
  destruct (POSTWith_no_query true blindClient shopService uploadRequest
              {| form_file := Some (EntryFile screenshot);
                 form_tiktokUrl := None |}
              screenshot eq_refl eq_refl eq_refl eq_refl eq_refl)
    as (Hstatus & Hmatches & Htrace & _).
  repeat split; assumption.
Defined.

(** X19 on the sample upload and the sample service. *)
Lemma POSTWith_search_results_witness :
  status (fst (POSTWith true nikeTeeClient shopService uploadRequest)) = 200 /\
  matches (body (fst (POSTWith true nikeTeeClient shopService uploadRequest)))
    = Some (toMatches shoppingResults) /\
  List.length (toMatches shoppingResults) = 3.
Proof.
  destruct (POSTWith_search_results nikeTeeClient shopService uploadRequest
              {| form_file := Some (EntryFile screenshot);
                 form_tiktokUrl := None |}
              screenshot _ _ "test-key"
              {| ok := true; res_status := 200;
                 json := Fulfilled
                           {| shopping_results := Some shoppingResults |} |}
              {| shopping_results := Some shoppingResults |}
              eq_refl eq_refl eq_refl)
    as (Hstatus & Hmatches & _).
  - vm_compute. discriminate.
  - reflexivity.
  - discriminate.
  - reflexivity.
  - reflexivity.
  - reflexivity.
  - repeat split; assumption.
Defined.
